(** * Instance segmentation overlay

    A shallow embedding of [instance_segmentation.py]: the custom mask, box
    and label renderer ([custom_visualization]), the option flags of
    [parse_arguments] and the capture loop of [main] with its frame-rate
    counter.

    Images live in a store of buffers, because the script distinguishes
    calls that build a new array ([frame.copy()], [cv2.addWeighted]) from
    calls that draw into an existing one ([cv2.rectangle], [cv2.putText]).
    Python floats (weights, confidences, clock readings) are modelled by
    exact rationals. The single precision arithmetic in which
    [cv2.addWeighted] blends 8-bit images is modelled with its rounding, its
    overflow and its conversion to 8-bit levels. *)

From Stdlib Require Import ZArith QArith Qround Qabs Qpower Qreduction Lia Lqa.
From stdpp Require Import base list strings pretty.

Close Scope Q_scope.
Open Scope Z_scope.

(** ** Arrays *)

(** One pixel of a 3-channel 8-bit image, channels in storage order. *)
Definition Pixel : Type := Z * Z * Z.

(** An image is a list of rows; a mask is a grid of probabilities. *)
Abbreviation Frame := (list (list Pixel)).
Abbreviation Mask := (list (list Q)).

Definition u8 (z : Z) : bool := (0 <=? z) && (z <=? 255).

Definition pixel_u8 (p : Pixel) : bool :=
  let '(a, b, c) := p in u8 a && u8 b && u8 c.

Definition frame_u8 (f : Frame) : bool := forallb (forallb pixel_u8) f.

(** No channel of [p] is above the same channel of [q]. *)
Definition px_le (p q : Pixel) : bool :=
  let '(p0, p1, p2) := p in
  let '(q0, q1, q2) := q in
  (p0 <=? q0) && (p1 <=? q1) && (p2 <=? q2).

(** [a.shape[0]] and [a.shape[1]]. *)
Definition height {A} (a : list (list A)) : nat := length a.
Definition width {A} (a : list (list A)) : nat := length (default [] (head a)).

(** The row lengths of an array; two arrays have the same shape when these
    agree. *)
Definition same_shape {A B} (a : list (list A)) (b : list (list B)) : bool :=
  bool_decide (length <$> a = length <$> b).

(** [a[r][c]], [None] outside the array. *)
Definition at_px {A} (a : list (list A)) (r c : nat) : option A :=
  a !! r ≫= λ row, row !! c.

(** ** Python exceptions the modelled code can raise *)

Inductive Exn : Type :=
  | IndexError      (* indexing an array out of bounds, or a mask of the wrong shape *)
  | KeyError        (* a class id without a name *)
  | CvError         (* OpenCV rejects its arguments *)
  | UnboundBuffer   (* a buffer address that was never allocated *)
  | OutOfFuel.      (* the loop budget of the model is exhausted *)

Inductive outcome (A : Type) : Type :=
  | Ok (a : A)
  | Raise (e : Exn).
Arguments Ok {A} a.
Arguments Raise {A} e.

(** ** Numeric conversions *)

(** Rounding to the nearest integer, ties to the even one: what the
    conversion of a float to an integer in OpenCV and Python's fixed-point
    formatting do. *)
Definition round_half_even (v : Q) : Z :=
  let f := Qfloor v in
  match Qcompare (v - inject_Z f) (1 # 2) with
  | Lt => f
  | Gt => f + 1
  | Eq => if Z.even f then f else f + 1
  end.

(** The exponent [e] of the binade of a positive [v]:
    [2^e <= v < 2^(e+1)]. *)
Definition binade (v : Q) : Z :=
  let k := Z.log2 (Qnum v) - Z.log2 (Z.pos (Qden v)) in
  if Qle_bool (2 ^ k) v then k else k - 1.

(** Rounding to single precision: the nearest number with a significand of
    24 bits, ties to the even significand, whatever the exponent. Numbers
    below the normal range are rounded like the others; in a blend of 8-bit
    images they are too small to change a stored level. *)
Definition float32 (v : Q) : Q :=
  let x := Qred v in
  if Qeq_bool x 0 then 0%Q
  else
    let ulp := (2 ^ (binade (Qabs x) - 23))%Q in
    Qred (inject_Z (round_half_even (x / ulp)) * ulp).

(** The largest single precision number, [(2^24 - 1) * 2^104]. *)
Definition max_float32 : Q := inject_Z ((2 ^ 24 - 1) * 2 ^ 104).

(** Whether [v] rounds to a finite single precision number. *)
Definition fits_float32 (v : Q) : bool :=
  Qle_bool (Qabs (float32 v)) max_float32.

(** A single precision value ([float] in OpenCV's C++) is a number, or
    [None] for an infinity or a NaN. A value that rounds beyond the largest
    number becomes infinite; an operation with an infinity or a NaN among
    its operands yields an infinity or a NaN again. *)
Definition to_float32 (v : Q) : option Q :=
  if fits_float32 v then Some (float32 v) else None.

Definition f32_mul (x y : option Q) : option Q :=
  match x, y with
  | Some a, Some b => to_float32 (a * b)
  | _, _ => None
  end.

Definition f32_add (x y : option Q) : option Q :=
  match x, y with
  | Some a, Some b => to_float32 (a + b)
  | _, _ => None
  end.

(** [cvRound] on a [float]: the nearest integer, ties to even, as a signed
    32-bit integer. What does not fit, an infinity and a NaN are converted to
    [-2^31], which is what the conversion instruction of x86-64 yields. *)
Definition cvRound (x : option Q) : Z :=
  match x with
  | Some v =>
    let r := round_half_even v in
    if (- 2 ^ 31 <=? r) && (r <? 2 ^ 31) then r else - 2 ^ 31
  | None => - 2 ^ 31
  end.

Definition clamp (lo hi z : Z) : Z := Z.max lo (Z.min hi z).

(** [saturate_cast<uchar>] of a [float]: [cvRound], then clamp the 32-bit
    integer into the 8-bit range. *)
Definition saturate_cast (x : option Q) : Z := clamp 0 255 (cvRound x).

(** Python's [int(x)] and NumPy's [astype(int)] on a float: truncation
    towards zero. *)
Definition int_of (v : Q) : Z := Z.quot (Qnum v) (Z.pos (Qden v)).

(** ** Formatting *)

(** The [d] low decimal digits of [n], most significant first. *)
Fixpoint fixed_digits (d : nat) (n : Z) : string :=
  match d with
  | O => ""
  | S d' => fixed_digits d' (n / 10) +:+ pretty (n mod 10)
  end.

(** [f"{v:.<d>f}"] for [d >= 1]. *)
Definition format_f (d : nat) (v : Q) : string :=
  let scale := 10 ^ Z.of_nat d in
  let s := round_half_even (Qabs v * inject_Z scale) in
  (if Qle_bool 0 v then "" else "-")
    +:+ pretty (s / scale) +:+ "." +:+ fixed_digits d (s mod scale).

(** ** Element-wise image operations *)

(** [(m > 0.5).astype(np.uint8)] *)
Definition threshold (m : Mask) : list (list Z) :=
  (λ row : list Q, (λ v, if Qle_bool v (1 # 2) then 0 else 1) <$> row) <$> m.

(** [np.zeros_like(frame, dtype=np.uint8)] *)
Definition zeros_like (f : Frame) : Frame :=
  (λ row : list Pixel, (λ _, (0, 0, 0)) <$> row) <$> f.

(** [a[m == 1] = color]: the mask must have the shape of the first two
    axes of [a]. *)
Definition setitem_mask (a : Frame) (m : list (list Z)) (color : Pixel)
  : outcome Frame :=
  if same_shape a m
  then Ok (zip_with (zip_with (λ p b, if b =? 1 then color else p)) a m)
  else Raise IndexError.

(** One channel of [cv2.addWeighted] on 8-bit images. The weights, given as
    Python floats, are converted to single precision;
    [a * alpha + b * beta + gamma] is evaluated in single precision, each
    operation rounding its result, and stored with [saturate_cast]. *)
Definition addWeighted_channel (alpha beta gamma : Q) (a b : Z) : Z :=
  saturate_cast
    (f32_add
       (f32_add (f32_mul (Some (inject_Z a)) (to_float32 alpha))
                (f32_mul (Some (inject_Z b)) (to_float32 beta)))
       (to_float32 gamma)).

Definition addWeighted_px (alpha beta gamma : Q) (p q : Pixel) : Pixel :=
  let '(p0, p1, p2) := p in
  let '(q0, q1, q2) := q in
  (addWeighted_channel alpha beta gamma p0 q0,
   addWeighted_channel alpha beta gamma p1 q1,
   addWeighted_channel alpha beta gamma p2 q2).

(** [cv2.addWeighted(src1, alpha, src2, beta, gamma)] on 8-bit images: a new
    image; the sources must have the same size. *)
Definition addWeighted (src1 : Frame) (alpha : Q) (src2 : Frame)
    (beta gamma : Q) : outcome Frame :=
  if same_shape src1 src2
  then Ok (zip_with (zip_with (addWeighted_px alpha beta gamma)) src1 src2)
  else Raise CvError.

(** Drawing a solid shape: every pixel at column [x], row [y] that the shape
    covers takes [color]; the image keeps its size. *)
Definition paint (covers : Z → Z → bool) (color : Pixel) (img : Frame) : Frame :=
  imap (λ y row,
    imap (λ x p, if covers (Z.of_nat x) (Z.of_nat y) then color else p) row) img.

(** [a[i]] for a NumPy array [a] and an integer [i]: negative indices count
    from the end, anything else outside the array raises. *)
Definition np_getitem {A} (a : list A) (i : Z) : outcome A :=
  let n := Z.of_nat (length a) in
  let j := if i <? 0 then i + n else i in
  if (0 <=? j) && (j <? n)
  then match a !! Z.to_nat j with Some x => Ok x | None => Raise IndexError end
  else Raise IndexError.

Fixpoint zip3 {A B C} (a : list A) (b : list B) (c : list C) : list (A * B * C) :=
  match a, b, c with
  | x :: a', y :: b', z :: c' => (x, y, z) :: zip3 a' b' c'
  | _, _, _ => []
  end.

(** ** Formulas of the specification *)

(** [clamp(f + alpha * c, 0, 255)] for one channel of an 8-bit image, in
    exact arithmetic: the sum is rounded to the nearest integer before it is
    clamped. *)
Definition composite_channel (alpha : Q) (f c : Z) : Z :=
  clamp 0 255 (round_half_even (inject_Z f + alpha * inject_Z c)).

Definition composite_px (alpha : Q) (p color : Pixel) : Pixel :=
  let '(p0, p1, p2) := p in
  let '(c0, c1, c2) := color in
  (composite_channel alpha p0 c0, composite_channel alpha p1 c1,
   composite_channel alpha p2 c2).

(** The same formula in single precision: alpha, the product and the sum are
    each rounded to single precision, and the sum is stored through a 32-bit
    integer. *)
Definition composite_f32_channel (alpha : Q) (f c : Z) : Z :=
  saturate_cast
    (f32_add (Some (inject_Z f)) (f32_mul (Some (inject_Z c)) (to_float32 alpha))).

Definition composite_f32_px (alpha : Q) (p color : Pixel) : Pixel :=
  let '(p0, p1, p2) := p in
  let '(c0, c1, c2) := color in
  (composite_f32_channel alpha p0 c0, composite_f32_channel alpha p1 c1,
   composite_f32_channel alpha p2 c2).

(** The largest difference between corresponding channels of two pixels. *)
Definition levels_apart (p q : Pixel) : Z :=
  let '(p0, p1, p2) := p in
  let '(q0, q1, q2) := q in
  Z.max (Z.abs (p0 - q0)) (Z.max (Z.abs (p1 - q1)) (Z.abs (p2 - q2))).

(** The sum of two contributions, clamped once. *)
Definition composite2_channel (alpha : Q) (f c1 c2 : Z) : Z :=
  clamp 0 255
    (round_half_even (inject_Z f + alpha * inject_Z c1 + alpha * inject_Z c2)).

Definition composite2_px (alpha : Q) (p color1 color2 : Pixel) : Pixel :=
  let '(p0, p1, p2) := p in
  let '(a0, a1, a2) := color1 in
  let '(b0, b1, b2) := color2 in
  (composite2_channel alpha p0 a0 b0, composite2_channel alpha p1 a1 b1,
   composite2_channel alpha p2 a2 b2).


(** ** Detection results *)

(** A row of [results[0].boxes.data]: corner coordinates and confidence. *)
Record BoxRow : Type := {
  box_x1 : Q;
  box_y1 : Q;
  box_x2 : Q;
  box_y2 : Q;
  box_conf : Q
}.

(** [results[0].names]: the script only takes its length and indexes it by a
    class id; a missing key is [None]. *)
Record Names : Type := {
  names_len : nat;
  names_get : Z → option string
}.

(** [results[0]]. [masks] is [None] when the model found no object. *)
Record Results : Type := {
  masks : option (list Mask);
  boxes_data : list BoxRow;
  boxes_cls : list Q;
  names : Names
}.

(** ** Libraries the script calls *)

(** NumPy's global generator. Seeding replaces the whole state; each draw
    of [randint(low, high, dtype=np.uint8)] advances it. *)
Class NumpyRandom : Type := {
  rng_state : Type;
  seed_state : Z → rng_state;
  next_uint8 : Z → Z → rng_state → Z * rng_state
}.

(** OpenCV. Resizing and the pixel footprints of outlines and text are left
    to the library: [rectangle_covers pt1 pt2 thickness x y] tells whether
    [cv2.rectangle] paints the pixel at column [x], row [y];
    [putText_covers] does the same for [cv2.putText] with the simplex font.
    The calls are taken to succeed: the arguments that OpenCV rejects with
    [cv2.error] (an empty mask to resize, coordinates beyond 32 bits) are not
    told apart, and nothing is assumed about the size of a resized mask. *)
Class Cv2 : Type := {
  cv2_resize : Mask → nat * nat → Mask;
  rectangle_covers : Z * Z → Z * Z → Z → Z → Z → bool;
  cv2_getTextSize : string → Q → Z → Z * Z;
  putText_covers : string → Z * Z → Q → Z → Z → Z → bool
}.

(** The segmentation model: a call on a frame, and the built-in renderer of
    its result. Both are taken to return. *)
Class Yolo : Type := {
  model_call : Frame → Q → option (list Z) → Results;
  results_plot : Results → bool → bool → Z → bool → bool → Frame
}.

(** What the capture loop does to the outside world, in order. *)
Inductive Event : Type :=
  | EvRead (success : bool)
  | EvWriterOpen
  | EvDetect
  | EvAnnotate (custom : bool)
  | EvPutText (text : string)
  | EvImshow
  | EvWrite
  | EvWaitKey (key : Z)
  | EvCapRelease
  | EvWriterRelease
  | EvDestroyAllWindows.

#[global] Instance Event_eq_dec : EqDecision Event.
Proof. solve_decision. Defined.

Section Program.
Context `{NumpyRandom, Cv2, Yolo}.

(** ** The world the script runs in *)

Record World : Type := {
  heap : list Frame;          (* image buffers, addressed by position *)
  np_random : rng_state;      (* NumPy's global generator *)
  clock : nat → Q;            (* the n-th reading of [time.time()] *)
  clock_reads : nat;          (* readings taken so far *)
  cap_frames : list Frame;    (* frames the source has yet to deliver *)
  cap_opened : bool;
  keys : nat → Z;             (* the n-th answer of [cv2.waitKey] *)
  key_polls : nat;
  trace : list Event          (* newest event first *)
}.

Definition set_heap (h : list Frame) (w : World) : World :=
  {| heap := h; np_random := np_random w; clock := clock w;
     clock_reads := clock_reads w; cap_frames := cap_frames w;
     cap_opened := cap_opened w; keys := keys w; key_polls := key_polls w;
     trace := trace w |}.

Definition set_np_random (g : rng_state) (w : World) : World :=
  {| heap := heap w; np_random := g; clock := clock w;
     clock_reads := clock_reads w; cap_frames := cap_frames w;
     cap_opened := cap_opened w; keys := keys w; key_polls := key_polls w;
     trace := trace w |}.

Definition set_clock_reads (n : nat) (w : World) : World :=
  {| heap := heap w; np_random := np_random w; clock := clock w;
     clock_reads := n; cap_frames := cap_frames w;
     cap_opened := cap_opened w; keys := keys w; key_polls := key_polls w;
     trace := trace w |}.

Definition set_cap (fs : list Frame) (o : bool) (w : World) : World :=
  {| heap := heap w; np_random := np_random w; clock := clock w;
     clock_reads := clock_reads w; cap_frames := fs;
     cap_opened := o; keys := keys w; key_polls := key_polls w;
     trace := trace w |}.

Definition set_key_polls (n : nat) (w : World) : World :=
  {| heap := heap w; np_random := np_random w; clock := clock w;
     clock_reads := clock_reads w; cap_frames := cap_frames w;
     cap_opened := cap_opened w; keys := keys w; key_polls := n;
     trace := trace w |}.

Definition set_trace (t : list Event) (w : World) : World :=
  {| heap := heap w; np_random := np_random w; clock := clock w;
     clock_reads := clock_reads w; cap_frames := cap_frames w;
     cap_opened := cap_opened w; keys := keys w; key_polls := key_polls w;
     trace := t |}.

(** ** Computations: state passing with exceptions *)

Definition M (A : Type) : Type := World → outcome A * World.

Definition ret {A} (a : A) : M A := λ w, (Ok a, w).

Definition bind {A B} (m : M A) (k : A → M B) : M B :=
  λ w, match m w with
       | (Ok a, w') => k a w'
       | (Raise e, w') => (Raise e, w')
       end.

Definition lift {A} (o : outcome A) : M A := λ w, (o, w).

Notation "x <- m ;; k" := (bind m (λ x, k))
  (at level 100, m at next level, right associativity).
Notation "m ;;; k" := (bind m (λ _, k))
  (at level 100, right associativity).

(** A buffer address. *)
Definition loc : Type := nat.

Definition load (l : loc) : M Frame :=
  λ w, match heap w !! l with
       | Some f => (Ok f, w)
       | None => (Raise UnboundBuffer, w)
       end.

Definition alloc (f : Frame) : M loc :=
  λ w, (Ok (length (heap w)), set_heap (heap w ++ [f]) w).

Definition store (l : loc) (f : Frame) : M unit :=
  λ w, (Ok tt, set_heap (<[l := f]> (heap w)) w).

Definition emit (e : Event) : M unit :=
  λ w, (Ok tt, set_trace (e :: trace w) w).

(** [np.random.seed(s)] *)
Definition np_random_seed (s : Z) : M unit :=
  λ w, (Ok tt, set_np_random (seed_state s) w).

(** [n] rows of three draws, filled in row-major order. *)
Fixpoint draw_rows (low high : Z) (n : nat) (g : rng_state)
  : list Pixel * rng_state :=
  match n with
  | O => ([], g)
  | S n' =>
    let '(a, g1) := next_uint8 low high g in
    let '(b, g2) := next_uint8 low high g1 in
    let '(c, g3) := next_uint8 low high g2 in
    let '(rest, g') := draw_rows low high n' g3 in
    ((a, b, c) :: rest, g')
  end.

(** [np.random.randint(low, high, size=(n, 3), dtype=np.uint8)] *)
Definition np_random_randint (low high : Z) (n : nat) : M (list Pixel) :=
  λ w, let '(t, g) := draw_rows low high n (np_random w) in
       (Ok t, set_np_random g w).

(** [cv2.rectangle(img, pt1, pt2, color, thickness)]: draws into [img]. *)
Definition cv2_rectangle (img : loc) (pt1 pt2 : Z * Z) (color : Pixel)
    (thickness : Z) : M unit :=
  f <- load img ;;
  store img (paint (rectangle_covers pt1 pt2 thickness) color f).

(** [cv2.putText(img, text, org, FONT_HERSHEY_SIMPLEX, scale, color,
    thickness)]: draws into [img]; the text is recorded in the trace. *)
Definition cv2_putText (img : loc) (text : string) (org : Z * Z) (scale : Q)
    (color : Pixel) (thickness : Z) : M unit :=
  f <- load img ;;
  store img (paint (putText_covers text org scale thickness) color f) ;;;
  emit (EvPutText text).

(** ** [custom_visualization] *)

(** Lines 67-68: the colour table, one row per class name. *)
Definition class_colors (seed : Z) (num_classes : nat) : M (list Pixel) :=
  np_random_seed seed ;;;
  np_random_randint 0 255 num_classes.

(** Lines 72-90: look up the class colour, binarise the resized mask, build
    the coloured overlay and blend it into a new annotated image. The
    overlay of line 80 is neither drawn into nor returned, so it is kept as
    a value and not as a buffer of the store. *)
Definition blend_mask (frame : loc) (colors : list Pixel) (mask_alpha : Q)
    (annotated_frame : loc) (mask : Mask) (class_id : Z) : M (loc * Pixel) :=
  color <- lift (np_getitem colors class_id) ;;
  fr <- load frame ;;
  let mask_binary := threshold (cv2_resize mask (width fr, height fr)) in
  colored_mask <- lift (setitem_mask (zeros_like fr) mask_binary color) ;;
  src1 <- load annotated_frame ;;
  dst <- lift (addWeighted src1 1 colored_mask mask_alpha 0) ;;
  annotated_frame' <- alloc dst ;;
  ret (annotated_frame', color).

(** Line 99 *)
Definition label_text (class_name : string) (confidence : Q) : string :=
  class_name +:+ " " +:+ format_f 2 confidence.

(** Lines 92-123: the bounding box, the label background and the label. *)
Definition draw_box_label (results : Results) (annotated_frame : loc)
    (box : BoxRow) (class_id : Z) (color : Pixel) : M unit :=
  let x1 := int_of (box_x1 box) in
  let y1 := int_of (box_y1 box) in
  let x2 := int_of (box_x2 box) in
  let y2 := int_of (box_y2 box) in
  cv2_rectangle annotated_frame (x1, y1) (x2, y2) color 2 ;;;
  class_name <- lift (match names_get (names results) class_id with
                      | Some s => Ok s
                      | None => Raise KeyError
                      end) ;;
  let confidence := box_conf box in
  let label := label_text class_name confidence in
  let '(text_w, text_h) := cv2_getTextSize label (1 # 2) 2 in
  cv2_rectangle annotated_frame
    (x1, y1 - text_h - 8) (x1 + text_w + 8, y1) color (-1) ;;;
  cv2_putText annotated_frame label (x1 + 4, y1 - 4) (1 # 2)
    (255, 255, 255) 2.

(** What lines 92-123 leave in the annotated image: the box outline, then
    the filled label background, then the label text in white. *)
Definition box_and_label (box : BoxRow) (color : Pixel) (label : string)
    (img : Frame) : Frame :=
  let x1 := int_of (box_x1 box) in
  let y1 := int_of (box_y1 box) in
  let x2 := int_of (box_x2 box) in
  let y2 := int_of (box_y2 box) in
  let '(text_w, text_h) := cv2_getTextSize label (1 # 2) 2 in
  paint (putText_covers label (x1 + 4, y1 - 4) (1 # 2) 2) (255, 255, 255)
    (paint (rectangle_covers (x1, y1 - text_h - 8) (x1 + text_w + 8, y1) (-1)) color
       (paint (rectangle_covers (x1, y1) (x2, y2) 2) color img)).

(** Whether one of the three drawings of lines 92-123 paints the pixel at
    column [x], row [y]. *)
Definition box_label_covers (box : BoxRow) (label : string) (x y : Z) : bool :=
  let x1 := int_of (box_x1 box) in
  let y1 := int_of (box_y1 box) in
  let x2 := int_of (box_x2 box) in
  let y2 := int_of (box_y2 box) in
  let '(text_w, text_h) := cv2_getTextSize label (1 # 2) 2 in
  putText_covers label (x1 + 4, y1 - 4) (1 # 2) 2 x y
  || rectangle_covers (x1, y1 - text_h - 8) (x1 + text_w + 8, y1) (-1) x y
  || rectangle_covers (x1, y1) (x2, y2) 2 x y.

(** The body of the loop of line 71 for one mask, box and class id. *)
Definition draw_detection (frame : loc) (results : Results) (colors : list Pixel)
    (mask_alpha : Q) (annotated_frame : loc) (det : Mask * BoxRow * Z) : M loc :=
  let '(mask, box, class_id) := det in
  r <- blend_mask frame colors mask_alpha annotated_frame mask class_id ;;
  let '(annotated_frame', color) := r in
  draw_box_label results annotated_frame' box class_id color ;;;
  ret annotated_frame'.

Fixpoint for_each {A B} (body : A → B → M A) (a : A) (l : list B) : M A :=
  match l with
  | [] => ret a
  | x :: l' => a' <- body a x ;; for_each body a' l'
  end.

(** The masks, boxes and class ids the loop of line 71 zips together. *)
Definition detections (results : Results) : list (Mask * BoxRow * Z) :=
  match masks results with
  | None => []
  | Some ms => zip3 ms (boxes_data results) (int_of <$> boxes_cls results)
  end.

Definition custom_visualization (frame : loc) (results : Results)
    (mask_alpha : Q) : M loc :=
  fr <- load frame ;;
  annotated_frame <- alloc fr ;;
  match masks results with
  | None => ret annotated_frame
  | Some _ =>
    colors <- class_colors 42 (names_len (names results)) ;;
    for_each (draw_detection frame results colors mask_alpha)
      annotated_frame (detections results)
  end.

(** ** [parse_arguments] *)

(** The parsed options ([argparse.Namespace]). *)
Record Namespace : Type := {
  args_model : string;
  args_device : string;
  args_conf : Q;
  args_save : bool;
  args_classes : option (list Z);
  args_show_fps : bool;
  args_show_labels : bool;
  args_show_conf : bool;
  args_mask_alpha : Q;
  args_custom_visualization : bool
}.


(** The Python float [0.3], the default of [--mask-alpha]: the double
    nearest to 3/10, which lies just below it. *)
Definition float_0_3 : Q := (5404319552844595 # 18014398509481984)%Q.



(** ** The capture loop of [main] *)

(** [time.time()] *)
Definition time_time : M Q :=
  λ w, (Ok (clock w (clock_reads w)), set_clock_reads (S (clock_reads w)) w).

(** [cap.isOpened()] *)
Definition cap_isOpened : M bool := λ w, (Ok (cap_opened w), w).

(** [cap.read()]: the next frame in a new buffer, or failure. *)
Definition cap_read : M (option loc) :=
  λ w, match cap_opened w, cap_frames w with
       | true, f :: fs =>
         (Ok (Some (length (heap w))),
          set_trace (EvRead true :: trace w)
            (set_cap fs true (set_heap (heap w ++ [f]) w)))
       | _, _ => (Ok None, set_trace (EvRead false :: trace w) w)
       end.

(** [cap.release()] *)
Definition cap_release : M unit :=
  λ w, (Ok tt, set_trace (EvCapRelease :: trace w) (set_cap (cap_frames w) false w)).

(** [cv2.waitKey(delay)] *)
Definition cv2_waitKey (delay : Z) : M Z :=
  λ w, let k := keys w (key_polls w) in
       (Ok k, set_trace (EvWaitKey k :: trace w) (set_key_polls (S (key_polls w)) w)).

(** The three variables of the frame-rate counter. *)
Record FpsVars : Type := {
  frame_count : Z;
  start_time : Q;
  fps_display : Q
}.

(** Lines 164-166 *)
Definition fps_init : M FpsVars :=
  now <- time_time ;;
  ret {| frame_count := 0; start_time := now; fps_display := 0 |}.

(** Lines 180-185 *)
Definition fps_update (v : FpsVars) : M FpsVars :=
  let frame_count' := frame_count v + 1 in
  now <- time_time ;;
  let elapsed_time := (now - start_time v)%Q in
  if Qle_bool 1 elapsed_time
  then
    let fps_display' := (inject_Z frame_count' / elapsed_time)%Q in
    now' <- time_time ;;
    ret {| frame_count := 0; start_time := now'; fps_display := fps_display' |}
  else
    ret {| frame_count := frame_count'; start_time := start_time v;
           fps_display := fps_display v |}.

(** [n] consecutive passes through lines 180-185. *)
Fixpoint fps_ticks (n : nat) (v : FpsVars) : M FpsVars :=
  match n with
  | O => ret v
  | S n' => v' <- fps_update v ;; fps_ticks n' v'
  end.

(** Lines 187-205: inference, then one of the two renderers. *)
Definition annotate (args : Namespace) (frame : loc) : M loc :=
  f <- load frame ;;
  emit EvDetect ;;;
  let results := model_call f (args_conf args) (args_classes args) in
  emit (EvAnnotate (args_custom_visualization args)) ;;;
  if args_custom_visualization args
  then custom_visualization frame results (args_mask_alpha args)
  else alloc (results_plot results (args_show_conf args) (args_show_labels args)
                2 true true).

(** Lines 171-228. [output_writer] is [Some tt] when a writer was created.
    The loop stops by itself when the source runs dry or the quit key is
    read; [fuel] bounds the number of iterations of the model. *)
Fixpoint main_loop (fuel : nat) (args : Namespace) (output_writer : option unit)
    (v : FpsVars) : M unit :=
  match fuel with
  | O => lift (Raise OutOfFuel)
  | S fuel' =>
    opened <- cap_isOpened ;;
    if negb opened then ret tt else
    r <- cap_read ;;
    match r with
    | None => ret tt
    | Some frame =>
      v' <- fps_update v ;;
      annotated_frame <- annotate args frame ;;
      (if args_show_fps args
       then cv2_putText annotated_frame ("FPS: " +:+ format_f 1 (fps_display v'))
              (20, 40) 1 (0, 255, 0) 2
       else ret tt) ;;;
      emit EvImshow ;;;
      match output_writer with Some _ => emit EvWrite | None => ret tt end ;;;
      key <- cv2_waitKey 1 ;;
      if Z.land key 255 =? 113 then ret tt
      else main_loop fuel' args output_writer v'
    end
  end.

(** Lines 144-234, from the test that the source opened. *)
Definition main (fuel : nat) (args : Namespace) : M unit :=
  opened <- cap_isOpened ;;
  if negb opened then ret tt else
  output_writer <- (if args_save args
                    then emit EvWriterOpen ;;; ret (Some tt)
                    else ret None) ;;
  v <- fps_init ;;
  main_loop fuel args output_writer v ;;;
  cap_release ;;;
  match output_writer with Some _ => emit EvWriterRelease | None => ret tt end ;;;
  emit EvDestroyAllWindows.

(** ** Expected traces *)

(** The trace without the text drawings. *)
Definition control (t : list Event) : list Event :=
  List.filter (λ e, match e with EvPutText _ => false | _ => true end) t.

(** The events of one pass of the loop that gets a frame and reads [key] at
    its end, newest first. *)
Definition pass_events (args : Namespace) (output_writer : option unit)
    (key : Z) : list Event :=
  EvWaitKey key
    :: match output_writer with Some _ => [EvWrite] | None => [] end
    ++ [EvImshow; EvAnnotate (args_custom_visualization args); EvDetect;
        EvRead true].

(** The events of the whole loop on a source holding [frames], with the
    keyboard [ks] polled [polls] times so far, newest first. *)
Fixpoint loop_events (args : Namespace) (output_writer : option unit)
    (frames : list Frame) (ks : nat → Z) (polls : nat) : list Event :=
  match frames with
  | [] => [EvRead false]
  | _ :: frames' =>
    (if Z.land (ks polls) 255 =? 113 then []
     else loop_events args output_writer frames' ks (S polls))
    ++ pass_events args output_writer (ks polls)
  end.

(** ** The renderer as a fold *)

(** Whether the thresholded, resized [mask] covers the pixel at row [r],
    column [c] of a frame [fr]. *)
Definition mask_covers (fr : Frame) (mask : Mask) (r c : nat) : bool :=
  match at_px (cv2_resize mask (width fr, height fr)) r c with
  | Some v => negb (Qle_bool v (1 # 2))
  | None => false
  end.

(** The value of one pixel after the masks of [dets] were blended over it in
    order, starting from [p]. *)
Definition composite_detections (alpha : Q) (colors : list Pixel) (fr : Frame)
    (r c : nat) (p : Pixel) (dets : list (Mask * BoxRow * Z)) : Pixel :=
  foldl (λ px det,
           match np_getitem colors det.2 with
           | Ok color =>
             if mask_covers fr det.1.1 r c then composite_f32_px alpha px color
             else px
           | Raise _ => px
           end) p dets.

(** The label drawn for a detection, when its class has a name. *)
Definition label_of (results : Results) (det : Mask * BoxRow * Z) : option string :=
  (λ class_name, label_text class_name (box_conf det.1.2))
    <$> names_get (names results) det.2.

(** Whether the box or the label of some detection of [dets] paints the
    pixel at column [x], row [y]. *)
Definition any_box_label_covers (results : Results)
    (dets : list (Mask * BoxRow * Z)) (x y : Z) : bool :=
  existsb (λ det, match label_of results det with
                  | Some label => box_label_covers det.1.2 label x y
                  | None => false
                  end) dets.

(** ** Relations between worlds *)

(** [renders w w']: from [w] to [w'] only new buffers were added, only text
    drawings were recorded, and possibly the generator advanced; every
    buffer of [w] is intact. *)
Definition renders (w w' : World) : Prop :=
  (∃ k, heap w' = heap w ++ k) ∧
  (∃ texts, trace w' = (EvPutText <$> texts) ++ trace w) ∧
  clock w' = clock w ∧ clock_reads w' = clock_reads w ∧
  cap_frames w' = cap_frames w ∧ cap_opened w' = cap_opened w ∧
  keys w' = keys w ∧ key_polls w' = key_polls w.

(** [still_held w w']: from [w] to [w'] the source stayed as open as it was,
    and nothing was released: no release of the source or of the writer and
    no closing of the windows was recorded. *)
Definition still_held (w w' : World) : Prop :=
  cap_opened w' = cap_opened w ∧
  ∃ new, trace w' = new ++ trace w ∧
         Forall (λ e, e ≠ EvCapRelease ∧ e ≠ EvWriterRelease
                      ∧ e ≠ EvDestroyAllWindows) new.

(** A computation that releases nothing, whatever its outcome. *)
Definition holds {A} (m : M A) : Prop :=
  ∀ (w : World) (o : outcome A) (w' : World), m w = (o, w') → still_held w w'.

End Program.

Arguments World {_}.
Arguments M {_} A.

(** ** Stand-ins for the libraries

    Small executable instances, used to run the model on concrete inputs.
    The theorems below hold for every instance. *)

(** A generator whose state is a counter: each draw returns the counter
    reduced into [[low, high)] and increments it. *)
Definition counting_random : NumpyRandom :=
  {| rng_state := Z;
     seed_state := λ s, s;
     next_uint8 := λ low high g, (low + (g - low) mod (high - low), g + 1) |}.

(** Nearest-neighbour resampling; the identity on a mask that already has
    the requested size. *)
Definition nearest_resize (m : Mask) (dsize : nat * nat) : Mask :=
  let '(w, h) := dsize in
  let mh := height m in
  let mw := width m in
  (λ r, (λ c, default 0%Q (at_px m (r * mh / h) (c * mw / w))) <$> seq 0 w)
    <$> seq 0 h.

(** A rectangle with corners [pt1], [pt2]: filled when [thickness] is
    negative, otherwise a band of [thickness / 2] pixels on either side of
    its border. *)
Definition block_rectangle (pt1 pt2 : Z * Z) (thickness x y : Z) : bool :=
  let xa := Z.min pt1.1 pt2.1 in
  let xb := Z.max pt1.1 pt2.1 in
  let ya := Z.min pt1.2 pt2.2 in
  let yb := Z.max pt1.2 pt2.2 in
  let inside d := (xa - d <=? x) && (x <=? xb + d) && (ya - d <=? y) && (y <=? yb + d) in
  if thickness <? 0 then inside 0
  else inside (thickness / 2) && negb (inside (- (thickness / 2) - 1)).

(** Text as a solid block: 20 by 22 pixels per character at scale 1. *)
Definition block_text_size (text : string) (scale : Q) (thickness : Z) : Z * Z :=
  (round_half_even (20 * inject_Z (Z.of_nat (String.length text)) * scale),
   round_half_even (22 * scale)).

Definition block_text (text : string) (org : Z * Z) (scale : Q)
    (thickness x y : Z) : bool :=
  let '(tw, th) := block_text_size text scale thickness in
  (org.1 <=? x) && (x <? org.1 + tw) && (org.2 - th <? y) && (y <=? org.2).

Definition block_cv2 : Cv2 :=
  {| cv2_resize := nearest_resize;
     rectangle_covers := block_rectangle;
     cv2_getTextSize := block_text_size;
     putText_covers := block_text |}.

(** A model that reports [r] for every frame, and a renderer that returns
    the empty image. *)
Definition fixed_yolo (r : Results) : Yolo :=
  {| model_call := λ _ _ _, r;
     results_plot := λ _ _ _ _ _ _, [] |}.

(** A world holding the buffers [h], with a source of frames [fs], a clock
    and a keyboard. *)
Definition world_of `{NumpyRandom} (h : list Frame) (g : rng_state)
    (clk : nat → Q) (fs : list Frame) (ks : nat → Z) : World :=
  {| heap := h; np_random := g; clock := clk; clock_reads := 0;
     cap_frames := fs; cap_opened := true; keys := ks; key_polls := 0;
     trace := [] |}.

(** Uniform images and masks, and a detection row with integer corners. *)
Definition solid (h w : nat) (p : Pixel) : Frame := replicate h (replicate w p).
Definition flat_mask (h w : nat) (v : Q) : Mask := replicate h (replicate w v).
Definition box_at (x1 y1 x2 y2 : Z) (conf : Q) : BoxRow :=
  {| box_x1 := inject_Z x1; box_y1 := inject_Z y1; box_x2 := inject_Z x2;
     box_y2 := inject_Z y2; box_conf := conf |}.

(** Two class names, keyed by class id. *)
Definition two_names : Names :=
  {| names_len := 2;
     names_get := λ i, if i =? 0 then Some "a" else if i =? 1 then Some "b" else None |}.

(** ** Sample inputs *)

(** One black frame of [n] by [n] pixels in buffer 0, no source frames, a
    clock that stands still and a keyboard that is never touched. *)
Definition black_world (n : nat) : World (H := counting_random) :=
  world_of (H := counting_random) [solid n n (0, 0, 0)] 7 (λ _, 0%Q) [] (λ _, -1).

(** The same with a second buffer, a copy of the first. *)
Definition copied_world (n : nat) : World (H := counting_random) :=
  world_of (H := counting_random) [solid n n (0, 0, 0); solid n n (0, 0, 0)] 7
    (λ _, 0%Q) [] (λ _, -1).

(** Two buffers holding the same grey frame of [n] by [n] pixels. *)
Definition grey_world (n : nat) : World (H := counting_random) :=
  world_of (H := counting_random)
    [solid n n (200, 200, 200); solid n n (200, 200, 200)] 7
    (λ _, 0%Q) [] (λ _, -1).

(** Detections of class 0 with a box in the top left corner, one per mask
    value given, each mask uniform over [n] by [n] cells. *)
Definition corner_results (n : nat) (mask_values : list Q) : Results :=
  {| masks := Some (flat_mask n n <$> mask_values);
     boxes_data := (λ _, box_at 0 0 1 1 (9 # 10)) <$> mask_values;
     boxes_cls := (λ _, 0%Q) <$> mask_values;
     names := two_names |}.

(** A result without masks that still carries a box. *)
Definition boxes_only_results : Results :=
  {| masks := None;
     boxes_data := [box_at 0 0 1 1 (9 # 10)];
     boxes_cls := [0%Q];
     names := two_names |}.

(** Options with the custom renderer on and the confidence flag off. *)
Definition args_conf_off : Namespace :=
  {| args_model := "yolov8n-seg.pt"; args_device := "0";
     args_conf := (25 # 100)%Q; args_save := true; args_classes := None;
     args_show_fps := false; args_show_labels := true;
     args_show_conf := false; args_mask_alpha := (3 # 10)%Q;
     args_custom_visualization := true |}.

(** A clock that reads 0, then 1, then 3/2 from there on. *)
Definition stepping_clock (n : nat) : Q :=
  match n with
  | O => 0%Q
  | S O => 1%Q
  | _ => (3 # 2)%Q
  end.

(** A clock that advances by a quarter at every reading. *)
Definition quarter_clock (n : nat) : Q := (inject_Z (Z.of_nat n) * (1 # 4))%Q.

(** A source of three black frames. *)
Definition three_frame_world (ks : nat → Z) : World (H := counting_random) :=
  world_of (H := counting_random) [] 7 quarter_clock
    [solid 2 2 (0, 0, 0); solid 2 2 (0, 0, 0); solid 2 2 (0, 0, 0)] ks.

(** One detection of class 1 on a table of two classes of which only class
    0 has a name. *)
Definition unnamed_results (n : nat) : Results :=
  {| masks := Some [flat_mask n n 1];
     boxes_data := [box_at 0 0 1 1 (9 # 10)];
     boxes_cls := [1%Q];
     names := {| names_len := 2;
                 names_get := λ i, if i =? 0 then Some "a" else None |} |}.

(** A source that failed to open. *)
Definition closed_world : World (H := counting_random) :=
  set_cap [] false
    (world_of (H := counting_random) [] 7 quarter_clock [] (λ _, -1)).

(** ** Numbers, shapes and pixels *)

Lemma round_half_even_comp (v v' : Q) :
  (v == v')%Q → round_half_even v = round_half_even v'.
Proof.
  intros E. unfold round_half_even.
  rewrite (Qfloor_comp _ _ E).
  assert (Ec : ((v - inject_Z (Qfloor v')) ?= (1 # 2))%Q
               = ((v' - inject_Z (Qfloor v')) ?= (1 # 2))%Q).
  { apply Qcompare_comp; [rewrite E|]; reflexivity. }
  rewrite Ec. reflexivity.
Qed.

Lemma round_half_even_Z (z : Z) : round_half_even (inject_Z z) = z.
Proof.
  unfold round_half_even. rewrite Qfloor_Z.
  assert (Ec : ((inject_Z z - inject_Z z) ?= (1 # 2))%Q = Lt).
  { rewrite <- Qlt_alt. assert (E : (inject_Z z - inject_Z z == 0)%Q) by ring.
    rewrite E. reflexivity. }
  rewrite Ec. reflexivity.
Qed.

Lemma clamp_u8 (z : Z) : u8 z = true → clamp 0 255 z = z.
Proof. unfold u8, clamp. intros Hz. apply andb_true_iff in Hz as [? ?]. lia. Qed.

Lemma clamp_is_u8 (z : Z) : u8 (clamp 0 255 z) = true.
Proof. unfold u8, clamp. apply andb_true_iff. lia. Qed.

Lemma u8_bounds (z : Z) : u8 z = true ↔ 0 ≤ z ≤ 255.
Proof. unfold u8. rewrite andb_true_iff, Z.leb_le, Z.leb_le. done. Qed.

Lemma round_half_even_bounds (v : Q) :
  (v - (1 # 2) <= inject_Z (round_half_even v)
   ∧ inject_Z (round_half_even v) <= v + (1 # 2))%Q.
Proof.
  unfold round_half_even.
  pose proof (Qfloor_le v) as Hlo. pose proof (Qlt_floor v) as Hhi.
  rewrite inject_Z_plus in Hhi.
  change (inject_Z 1) with 1%Q in Hhi.
  destruct (Qcompare (v - inject_Z (Qfloor v)) (1 # 2)) eqn:Ec.
  - apply Qeq_alt in Ec. destruct (Z.even (Qfloor v)).
    + split; lra.
    + rewrite inject_Z_plus. change (inject_Z 1) with 1%Q. split; lra.
  - apply Qlt_alt in Ec. split; lra.
  - apply Qgt_alt in Ec. rewrite inject_Z_plus. change (inject_Z 1) with 1%Q.
    split; lra.
Qed.

Lemma inject_Z_le (a b : Z) : a ≤ b → (inject_Z a <= inject_Z b)%Q.
Proof. intros Hle. by rewrite <- Zle_Qle. Qed.

Lemma inject_Z_le_gap (a b : Z) :
  (inject_Z a <= inject_Z b + (3 # 2))%Q → a ≤ b + 1.
Proof.
  intros Hle. destruct (Z_le_gt_dec a (b + 1)) as [|Hgt]; [done|].
  assert (Hge : b + 2 ≤ a) by lia.
  apply inject_Z_le in Hge. rewrite inject_Z_plus in Hge.
  change (inject_Z 2) with 2%Q in Hge. lra.
Qed.

Lemma round_half_even_near (u v : Q) :
  (u <= v + (1 # 2))%Q → round_half_even u ≤ round_half_even v + 1.
Proof.
  intros Hle. apply inject_Z_le_gap.
  pose proof (round_half_even_bounds u). pose proof (round_half_even_bounds v).
  lra.
Qed.

Lemma round_half_even_mono (u v : Q) :
  (u <= v)%Q → round_half_even u ≤ round_half_even v.
Proof.
  intros Hle.
  destruct (Z_le_gt_dec (round_half_even u) (round_half_even v)) as [|Hgt]; [done|].
  exfalso.
  assert (Hge : round_half_even v + 1 ≤ round_half_even u) by lia.
  apply inject_Z_le in Hge. rewrite inject_Z_plus in Hge.
  change (inject_Z 1) with 1%Q in Hge.
  pose proof (round_half_even_bounds u). pose proof (round_half_even_bounds v).
  assert (Heq : (u == v)%Q) by lra.
  rewrite (round_half_even_comp _ _ Heq) in Hgt. lia.
Qed.

(** ** Single precision *)

Lemma pow2_inject (a : Z) : 0 ≤ a → (2 ^ a == inject_Z (2 ^ a))%Q.
Proof. intros Ha. symmetry. apply (Zpower_Qpower 2 a Ha). Qed.

Lemma pow2_pos (e : Z) : (0 < 2 ^ e)%Q.
Proof. apply Qpower_0_lt. reflexivity. Qed.

Lemma pow2_plus (a b : Z) : (2 ^ (a + b) == 2 ^ a * 2 ^ b)%Q.
Proof. apply Qpower_plus. discriminate. Qed.

Lemma pow2_diff (a b : Z) : 0 ≤ a → 0 ≤ b →
  (2 ^ (a - b) == inject_Z (2 ^ a) / inject_Z (2 ^ b))%Q.
Proof.
  intros Ha Hb. rewrite Qpower_minus by discriminate.
  rewrite (pow2_inject a Ha), (pow2_inject b Hb). reflexivity.
Qed.

Lemma pow2_le_inv (a b : Z) : (2 ^ a <= 2 ^ b)%Q → a ≤ b.
Proof. intros Hle. apply (Qpower_le_compat_l_inv 2); [done|reflexivity]. Qed.

Lemma Qlt_div_inject (n : Z) (d : positive) (A B : Z) :
  0 < B → n * B < A * Z.pos d → (n # d < inject_Z A / inject_Z B)%Q.
Proof.
  intros HB Hlt.
  assert (HBq : (0 < inject_Z B)%Q) by (unfold Qlt; simpl; lia).
  apply Qlt_shift_div_l; [done|].
  unfold Qlt, Qmult, inject_Z. simpl. lia.
Qed.

Lemma Qlt_inject_div (n : Z) (d : positive) (A B : Z) :
  0 < B → A * Z.pos d < n * B → (inject_Z A / inject_Z B < n # d)%Q.
Proof.
  intros HB Hlt.
  assert (HBq : (0 < inject_Z B)%Q) by (unfold Qlt; simpl; lia).
  apply Qlt_shift_div_r; [done|].
  unfold Qlt, Qmult, inject_Z. simpl. lia.
Qed.

(** [binade] finds the binade. *)
Lemma binade_spec (v : Q) :
  (0 < v)%Q → (2 ^ binade v <= v ∧ v < 2 ^ (binade v + 1))%Q.
Proof.
  destruct v as [n d]. intros Hv.
  assert (Hn : 0 < n) by (unfold Qlt in Hv; simpl in Hv; lia).
  unfold binade. simpl Qnum. simpl Qden.
  set (a := Z.log2 n). set (b := Z.log2 (Z.pos d)).
  pose proof (Z.log2_spec n Hn) as [Hna Hna'].
  pose proof (Z.log2_spec (Z.pos d) eq_refl) as [Hdb Hdb'].
  fold a in Hna, Hna'. fold b in Hdb, Hdb'.
  assert (Ha : 0 ≤ a) by apply Z.log2_nonneg.
  assert (Hb : 0 ≤ b) by apply Z.log2_nonneg.
  assert (Hpa : 0 < 2 ^ a) by (apply Z.pow_pos_nonneg; lia).
  assert (Hpb : 0 < 2 ^ b) by (apply Z.pow_pos_nonneg; lia).
  rewrite <- Z.add_1_r in Hna', Hdb'.
  assert (Hsa : 2 ^ (a + 1) = 2 * 2 ^ a) by (rewrite Z.pow_add_r by lia; lia).
  assert (Hsb : 2 ^ (b + 1) = 2 * 2 ^ b) by (rewrite Z.pow_add_r by lia; lia).
  assert (Hup : (n # d < 2 ^ (a - b + 1))%Q).
  { replace (a - b + 1) with ((a + 1) - b) by lia.
    rewrite pow2_diff by lia. apply Qlt_div_inject; [done|]. nia. }
  assert (Hlo : (2 ^ (a - b - 1) < n # d)%Q).
  { replace (a - b - 1) with (a - (b + 1)) by lia.
    rewrite pow2_diff by lia. apply Qlt_inject_div; [lia|]. nia. }
  destruct (Qle_bool (2 ^ (a - b)) (n # d)) eqn:Ek.
  - apply Qle_bool_iff in Ek. split; assumption.
  - assert (Hk : (n # d < 2 ^ (a - b))%Q).
    { apply Qnot_le_lt. intros Hle. apply Qle_bool_iff in Hle. congruence. }
    split.
    + apply Qlt_le_weak. assumption.
    + replace (a - b - 1 + 1) with (a - b) by lia. assumption.
Qed.

Lemma float32_comp (v v' : Q) : (v == v')%Q → float32 v = float32 v'.
Proof. intros E. unfold float32. by rewrite (Qred_complete _ _ E). Qed.

Lemma Qabs_scaled (m q : Z) :
  (Qabs (inject_Z m * 2 ^ q) == inject_Z (Z.abs m) * 2 ^ q)%Q.
Proof.
  rewrite Qabs_Qmult. rewrite (Qabs_pos (2 ^ q)) by (apply Qlt_le_weak, pow2_pos).
  apply Qmult_comp; [|reflexivity].
  unfold Qabs, inject_Z. reflexivity.
Qed.

Lemma Qabs_pos_nonzero (x : Q) : ¬ (x == 0)%Q → (0 < Qabs x)%Q.
Proof.
  intros Hx0. destruct (Qlt_le_dec 0 (Qabs x)) as [|Hle0]; [done|].
  exfalso. apply Hx0. apply Qabs_Qle_condition in Hle0. lra.
Qed.

(** A significand of at most 24 bits times a power of two is a single
    precision number: its conversion is exact. *)
Lemma float32_exact (m q : Z) :
  Z.abs m ≤ 2 ^ 24 → float32 (inject_Z m * 2 ^ q) = Qred (inject_Z m * 2 ^ q).
Proof.
  intros Hm. unfold float32.
  set (x := Qred (inject_Z m * 2 ^ q)%Q).
  assert (Ex : (x == inject_Z m * 2 ^ q)%Q) by apply Qred_correct.
  destruct (Qeq_bool x 0) eqn:E0.
  { apply Qeq_bool_iff in E0. unfold x.
    rewrite (Qred_complete _ 0%Q); [reflexivity|]. rewrite <- Ex. exact E0. }
  assert (Hx0 : ¬ (x == 0)%Q).
  { intros E. apply Qeq_bool_iff in E. congruence. }
  set (e := binade (Qabs x)).
  destruct (binade_spec (Qabs x) (Qabs_pos_nonzero _ Hx0)) as [Hlo Hhi].
  fold e in Hlo, Hhi.
  assert (Eabs : (Qabs x == inject_Z (Z.abs m) * 2 ^ q)%Q).
  { rewrite Ex. apply Qabs_scaled. }
  pose proof (pow2_pos q) as Hq. pose proof (pow2_pos e) as He.
  assert (Hm' : (inject_Z (Z.abs m) <= 2 ^ 24)%Q).
  { rewrite (pow2_inject 24) by lia. rewrite <- Zle_Qle. done. }
  assert (Hle : e ≤ 24 + q).
  { apply pow2_le_inv. rewrite pow2_plus. rewrite Eabs in Hlo.
    eapply Qle_trans; [exact Hlo|]. apply Qmult_le_compat_r; [done|lra]. }
  assert (∃ k : Z, (x / 2 ^ (e - 23) == inject_Z k)%Q) as [k Hk].
  { destruct (Z_le_gt_dec e (23 + q)) as [Hsmall|Hbig].
    - exists (m * 2 ^ (q - e + 23)).
      rewrite inject_Z_mult, <- pow2_inject by lia.
      rewrite Ex. replace (q - e + 23) with (q - (e - 23)) by lia.
      rewrite (Qpower_minus 2 q (e - 23)) by discriminate.
      field. apply Qpower_not_0. discriminate.
    - assert (e = 24 + q) as -> by lia.
      assert (Hge : (2 ^ 24 <= inject_Z (Z.abs m))%Q).
      { rewrite Eabs, pow2_plus in Hlo.
        apply Qmult_le_r with (z := (2 ^ q)%Q); done. }
      rewrite (pow2_inject 24) in Hge by lia. rewrite <- Zle_Qle in Hge.
      exists (m / 2).
      assert (Em : m = 2 * (m / 2)).
      { assert (Hab : Z.abs m = 2 ^ 24) by lia.
        assert (m = 2 ^ 24 ∨ m = - 2 ^ 24) as [->| ->] by lia; reflexivity. }
      rewrite Ex. rewrite Em at 1. rewrite inject_Z_mult.
      replace (24 + q - 23) with (1 + q) by lia. rewrite pow2_plus.
      change (inject_Z 2) with 2%Q. change (2 ^ 1)%Q with 2%Q.
      field. apply Qpower_not_0. discriminate. }
  rewrite (round_half_even_comp _ _ Hk), round_half_even_Z.
  apply Qred_complete. rewrite <- Hk, <- Ex.
  assert (Hu : ¬ (2 ^ (e - 23) == 0)%Q) by (apply Qpower_not_0; discriminate).
  generalize dependent (2 ^ (e - 23))%Q. intros u _ Hu. field. done.
Qed.

(** The shape of a conversion that is not zero: a significand of at most 24
    bits, scaled by the unit of the binade of the value. *)
Lemma float32_inv (v : Q) :
  ¬ (v == 0)%Q →
  let e := binade (Qabs (Qred v)) in
  let m := round_half_even (v / 2 ^ (e - 23)) in
  float32 v = Qred (inject_Z m * 2 ^ (e - 23)) ∧
  (2 ^ e <= Qabs v)%Q ∧ (Qabs v < 2 ^ (e + 1))%Q ∧
  Z.abs m ≤ 2 ^ 24.
Proof.
  intros Hv0 e m.
  assert (Ex : (Qred v == v)%Q) by apply Qred_correct.
  assert (Hx0 : ¬ (Qred v == 0)%Q) by (rewrite Ex; done).
  destruct (binade_spec (Qabs (Qred v)) (Qabs_pos_nonzero _ Hx0)) as [Hlo Hhi].
  fold e in Hlo, Hhi. rewrite Ex in Hlo, Hhi.
  split; [|split; [done|split; [done|]]].
  - unfold float32.
    destruct (Qeq_bool (Qred v) 0) eqn:E0.
    { apply Qeq_bool_iff in E0. done. }
    fold e. unfold m. f_equal. f_equal. f_equal.
    apply round_half_even_comp. rewrite Ex. reflexivity.
  - assert (Hu : (0 < 2 ^ (e - 23))%Q) by apply pow2_pos.
    assert (Eu : (2 ^ (e + 1) == 2 ^ 24 * 2 ^ (e - 23))%Q).
    { rewrite <- pow2_plus. replace (24 + (e - 23)) with (e + 1) by lia. reflexivity. }
    rewrite Eu in Hhi. clear Eu Hlo.
    assert (Hs : (- 2 ^ 24 <= v / 2 ^ (e - 23) ∧ v / 2 ^ (e - 23) <= 2 ^ 24)%Q).
    { apply Qabs_Qle_condition. unfold Qdiv. rewrite Qabs_Qmult.
      rewrite (Qabs_pos (/ _)) by (apply Qlt_le_weak, Qinv_lt_0_compat, Hu).
      apply Qle_shift_div_r; [done|]. lra. }
    destruct Hs as [Hs1 Hs2].
    apply round_half_even_mono in Hs1, Hs2. fold m in Hs1, Hs2.
    change (- 2 ^ 24)%Q with (inject_Z (- 2 ^ 24)) in Hs1.
    change (2 ^ 24)%Q with (inject_Z (2 ^ 24)) in Hs2.
    rewrite round_half_even_Z in Hs1, Hs2. lia.
Qed.

(** Converting twice is converting once. *)
Lemma float32_idem (v : Q) : float32 (float32 v) = float32 v.
Proof.
  destruct (Qeq_dec v 0) as [E0|Hv0].
  { rewrite (float32_comp _ _ E0). reflexivity. }
  destruct (float32_inv v Hv0) as (Ef & _ & _ & Hm).
  rewrite Ef. rewrite (float32_comp _ _ (Qred_correct _)).
  by apply float32_exact.
Qed.

(** The relative error of a conversion is at most [2^-24]. *)
Lemma float32_error (v : Q) :
  (Qabs (float32 v - v) <= Qabs v * (1 # 16777216))%Q.
Proof.
  destruct (Qeq_dec v 0) as [E0|Hv0].
  { rewrite (float32_comp _ _ E0). rewrite E0.
    change (float32 0) with 0%Q. discriminate. }
  destruct (float32_inv v Hv0) as (Ef & Hlo & _ & _).
  set (e := binade (Qabs (Qred v))) in *.
  rewrite Ef, Qred_correct. clear Ef.
  assert (Hu : (0 < 2 ^ (e - 23))%Q) by apply pow2_pos.
  assert (Eu : (2 ^ e == 8388608 * 2 ^ (e - 23))%Q).
  { change 8388608%Q with (2 ^ 23)%Q.
    rewrite <- pow2_plus. replace (23 + (e - 23)) with e by lia. reflexivity. }
  rewrite Eu in Hlo. clear Eu.
  remember (2 ^ (e - 23))%Q as u eqn:Eup. clear Eup.
  assert (Ev : (v == (v / u) * u)%Q) by (field; lra).
  remember (v / u)%Q as s eqn:Es. clear Es.
  pose proof (round_half_even_bounds s) as [Hb1 Hb2].
  remember (inject_Z (round_half_even s)) as m eqn:Em. clear Em.
  apply Qabs_Qle_condition.
  assert (H1 : (0 <= (m - s + (1 # 2)) * u)%Q) by (apply Qmult_le_0_compat; lra).
  assert (H2 : (0 <= (s + (1 # 2) - m) * u)%Q) by (apply Qmult_le_0_compat; lra).
  split; lra.
Qed.

(** The error of converting a non-negative value, as two inequalities. *)
Lemma float32_near (v : Q) :
  (0 <= v)%Q →
  (v - v * (1 # 16777216) <= float32 v ∧ float32 v <= v + v * (1 # 16777216))%Q.
Proof.
  intros Hv. pose proof (float32_error v) as He.
  rewrite (Qabs_pos v Hv) in He. apply Qabs_Qle_condition in He. lra.
Qed.

Lemma Qred_inject_Z (z : Z) : Qred (inject_Z z) = inject_Z z.
Proof.
  unfold Qred, inject_Z.
  pose proof (Z.ggcd_gcd z 1) as Hg. pose proof (Z.ggcd_correct_divisors z 1) as Hd.
  destruct (Z.ggcd z 1) as [g [aa bb]]. simpl in *.
  rewrite Z.gcd_1_r in Hg. subst g. destruct Hd as [Ha Hb].
  rewrite Z.mul_1_l in Ha, Hb. subst. reflexivity.
Qed.

(** An integer of at most 24 bits is a single precision number. *)
Lemma float32_Z (z : Z) : Z.abs z ≤ 2 ^ 24 → float32 (inject_Z z) = inject_Z z.
Proof.
  intros Hz.
  assert (E : (inject_Z z == inject_Z z * 2 ^ 0)%Q) by (change (2 ^ 0)%Q with 1%Q; ring).
  rewrite (float32_comp _ _ E), (float32_exact z 0 Hz).
  rewrite <- (Qred_complete _ _ E). apply Qred_inject_Z.
Qed.

Lemma to_float32_comp (v v' : Q) : (v == v')%Q → to_float32 v = to_float32 v'.
Proof. intros E. unfold to_float32, fits_float32. by rewrite (float32_comp _ _ E). Qed.

(** A result of a conversion converts to itself. *)
Lemma to_float32_idem (v x : Q) : to_float32 v = Some x → to_float32 x = Some x.
Proof.
  unfold to_float32, fits_float32. destruct (Qle_bool _ _) eqn:E; [|done].
  intros. simplify_eq. by rewrite float32_idem, E.
Qed.

Lemma to_float32_Z (z : Z) :
  Z.abs z ≤ 2 ^ 24 → to_float32 (inject_Z z) = Some (inject_Z z).
Proof.
  intros Hz. unfold to_float32, fits_float32. rewrite (float32_Z z Hz).
  assert (Hle : Qle_bool (Qabs (inject_Z z)) max_float32 = true).
  { apply Qle_bool_iff. unfold max_float32.
    change (Qabs (inject_Z z)) with (inject_Z (Z.abs z)).
    rewrite <- Zle_Qle. etrans; [exact Hz|]. done. }
  by rewrite Hle.
Qed.

(** Small non-negative values are within the range. *)
Lemma to_float32_small (v : Q) :
  (0 <= v <= 1000)%Q → to_float32 v = Some (float32 v).
Proof.
  intros [H0 H1]. unfold to_float32, fits_float32.
  destruct (float32_near v H0) as [Hlo Hhi].
  assert (Hle : Qle_bool (Qabs (float32 v)) max_float32 = true).
  { apply Qle_bool_iff. rewrite Qabs_pos by lra.
    assert (Hm : (1001 <= max_float32)%Q) by (vm_compute; discriminate).
    lra. }
  by rewrite Hle.
Qed.

Lemma fits_float32_unit (alpha : Q) : (0 <= alpha <= 1)%Q → fits_float32 alpha = true.
Proof.
  intros [H0 H1]. pose proof (to_float32_small alpha) as Hs.
  unfold to_float32 in Hs. destruct (fits_float32 alpha); [done|].
  discriminate Hs. lra.
Qed.

Lemma cvRound_Z (z : Z) : - 2 ^ 31 ≤ z < 2 ^ 31 → cvRound (Some (inject_Z z)) = z.
Proof.
  intros Hz. unfold cvRound. rewrite round_half_even_Z.
  destruct (Z.leb_spec (- 2 ^ 31) z), (Z.ltb_spec z (2 ^ 31)); simpl; lia.
Qed.

Lemma saturate_cast_u8 (a : Z) : u8 a = true → saturate_cast (Some (inject_Z a)) = a.
Proof.
  intros Ha. unfold saturate_cast. pose proof (proj1 (u8_bounds a) Ha).
  rewrite cvRound_Z by lia. by apply clamp_u8.
Qed.

(** ** The blend of the script: weights 1 and alpha, offset 0 *)

(** With the weight 1 on the first image and the offset 0 the three-term sum
    is [a + c * alpha], the product and the sum being rounded once each:
    multiplying by 1 and adding 0 are exact. *)
Lemma addWeighted_channel_script (alpha : Q) (a c : Z) :
  Z.abs a ≤ 2 ^ 24 →
  addWeighted_channel 1 alpha 0 a c = composite_f32_channel alpha a c.
Proof.
  intros Ha. unfold addWeighted_channel, composite_f32_channel.
  change (to_float32 1) with (Some 1%Q). change (to_float32 0) with (Some 0%Q).
  f_equal.
  assert (E1 : f32_mul (Some (inject_Z a)) (Some 1%Q) = Some (inject_Z a)).
  { unfold f32_mul. rewrite (to_float32_comp (inject_Z a * 1) (inject_Z a)) by ring.
    by apply to_float32_Z. }
  rewrite E1.
  destruct (f32_add (Some (inject_Z a)) _) as [x|] eqn:Ex; [|done].
  unfold f32_add. rewrite (to_float32_comp (x + 0) x) by ring.
  unfold f32_add in Ex.
  destruct (f32_mul (Some (inject_Z c)) (to_float32 alpha)) as [y|]; [|done].
  exact (to_float32_idem _ _ Ex).
Qed.

(** Where the overlay is 0 a finite weight changes nothing. *)
Lemma composite_f32_channel_zero (alpha : Q) (a : Z) :
  fits_float32 alpha = true → u8 a = true → composite_f32_channel alpha a 0 = a.
Proof.
  intros Hfit Ha. unfold composite_f32_channel, to_float32. rewrite Hfit.
  unfold f32_mul. rewrite (to_float32_comp (inject_Z 0 * float32 alpha) 0) by ring.
  change (to_float32 0) with (Some 0%Q).
  unfold f32_add. rewrite (to_float32_comp (inject_Z a + 0) (inject_Z a)) by ring.
  pose proof (proj1 (u8_bounds a) Ha).
  rewrite to_float32_Z by (simpl; lia). by apply saturate_cast_u8.
Qed.

Lemma addWeighted_channel_zero (alpha : Q) (a : Z) :
  fits_float32 alpha = true → u8 a = true → addWeighted_channel 1 alpha 0 a 0 = a.
Proof.
  intros Hfit Ha. pose proof (proj1 (u8_bounds a) Ha).
  rewrite addWeighted_channel_script by (simpl; lia).
  by apply composite_f32_channel_zero.
Qed.

(** For a weight between 0 and 1 the sum computed in single precision is a
    number and misses the exact sum by less than a thousandth. *)
Lemma composite_f32_sum_near (alpha : Q) (f c : Z) :
  (0 <= alpha <= 1)%Q → u8 f = true → u8 c = true →
  ∃ s : Q,
    f32_add (Some (inject_Z f)) (f32_mul (Some (inject_Z c)) (to_float32 alpha))
      = Some s ∧
    (inject_Z f - (1 # 1000) <= s ∧
     inject_Z f + alpha * inject_Z c - (1 # 1000) <= s ∧
     s <= inject_Z f + alpha * inject_Z c + (1 # 1000) ∧ s <= 511)%Q.
Proof.
  intros [Ha0 Ha1] Hf Hc.
  apply u8_bounds in Hf as [Hf0 Hf1]. apply u8_bounds in Hc as [Hc0 Hc1].
  apply inject_Z_le in Hf0, Hf1, Hc0, Hc1.
  change (inject_Z 0) with 0%Q in *. change (inject_Z 255) with 255%Q in *.
  remember (inject_Z f) as F eqn:EF. clear EF f.
  remember (inject_Z c) as C eqn:EC. clear EC c.
  rewrite (to_float32_small alpha) by lra.
  destruct (float32_near alpha Ha0) as [A1 A2].
  remember (float32 alpha) as A eqn:EA. clear EA.
  assert (HA0 : (0 <= A)%Q) by lra.
  assert (HCA : (0 <= C * A)%Q) by (apply Qmult_le_0_compat; done).
  assert (HCA1 : (0 <= (255 - C) * A)%Q) by (apply Qmult_le_0_compat; lra).
  assert (HCa : (0 <= C * (A - (alpha - alpha * (1 # 16777216))))%Q)
    by (apply Qmult_le_0_compat; lra).
  assert (HCa' : (0 <= C * (alpha + alpha * (1 # 16777216) - A))%Q)
    by (apply Qmult_le_0_compat; lra).
  assert (HCal : (0 <= C * alpha)%Q) by (apply Qmult_le_0_compat; done).
  assert (HCal1 : (0 <= (255 - C) * alpha)%Q) by (apply Qmult_le_0_compat; lra).
  unfold f32_mul. rewrite (to_float32_small (C * A)) by lra.
  destruct (float32_near (C * A) HCA) as [T1 T2].
  remember (float32 (C * A)) as T eqn:ET. clear ET.
  assert (HFT : (0 <= F + T)%Q) by lra.
  unfold f32_add. rewrite (to_float32_small (F + T)) by lra.
  destruct (float32_near (F + T) HFT) as [S1 S2].
  remember (float32 (F + T)) as S eqn:ES. clear ES.
  exists S. split; [done|]. split_and!; lra.
Qed.

(** An integer above a rational is at least the next integer below it. *)
Lemma inject_Z_lt_le (a b : Z) : (inject_Z a - 1 < inject_Z b)%Q → a ≤ b.
Proof.
  intros Hlt. destruct (Z_le_gt_dec a b) as [|Hgt]; [done|]. exfalso.
  assert (Hge : b + 1 ≤ a) by lia.
  apply inject_Z_le in Hge. rewrite inject_Z_plus in Hge.
  change (inject_Z 1) with 1%Q in Hge. lra.
Qed.

Lemma composite_f32_channel_round (alpha : Q) (f c : Z) :
  (0 <= alpha <= 1)%Q → u8 f = true → u8 c = true →
  ∃ r : Z,
    composite_f32_channel alpha f c = clamp 0 255 r ∧
    f ≤ r ∧
    r ≤ round_half_even (inject_Z f + alpha * inject_Z c) + 1 ∧
    round_half_even (inject_Z f + alpha * inject_Z c) ≤ r + 1.
Proof.
  intros Ha Hf Hc.
  destruct (composite_f32_sum_near alpha f c Ha Hf Hc)
    as (s & Es & Hs0 & Hs1 & Hs2 & Hs3).
  exists (round_half_even s).
  pose proof (round_half_even_bounds s) as [Hr1 Hr2].
  apply u8_bounds in Hf as [Hf0 Hf1].
  assert (Hfr : f ≤ round_half_even s) by (apply inject_Z_lt_le; lra).
  assert (Hr512 : round_half_even s ≤ 512).
  { apply inject_Z_lt_le. change (inject_Z 512) with 512%Q. lra. }
  split_and!.
  - unfold composite_f32_channel. rewrite Es. unfold saturate_cast, cvRound.
    destruct (Z.leb_spec (- 2 ^ 31) (round_half_even s)),
      (Z.ltb_spec (round_half_even s) (2 ^ 31)); simpl; lia.
  - done.
  - apply round_half_even_near. lra.
  - apply round_half_even_near. lra.
Qed.

(** For a weight between 0 and 1 the single precision blend of a channel is
    within one level of the exact formula. *)
Lemma composite_f32_channel_near (alpha : Q) (f c : Z) :
  (0 <= alpha <= 1)%Q → u8 f = true → u8 c = true →
  Z.abs (composite_f32_channel alpha f c - composite_channel alpha f c) ≤ 1.
Proof.
  intros Ha Hf Hc.
  destruct (composite_f32_channel_round alpha f c Ha Hf Hc) as (r & -> & _ & H1 & H2).
  unfold composite_channel, clamp. lia.
Qed.

(** And it lies between the old level and 255. *)
Lemma composite_f32_channel_bright (alpha : Q) (f c : Z) :
  (0 <= alpha <= 1)%Q → u8 f = true → u8 c = true →
  f ≤ composite_f32_channel alpha f c ≤ 255.
Proof.
  intros Ha Hf Hc.
  destruct (composite_f32_channel_round alpha f c Ha Hf Hc) as (r & -> & H0 & _ & _).
  apply u8_bounds in Hf. unfold clamp. lia.
Qed.

(** A weight that single precision cannot hold becomes infinite. Its product
    with the 0 of the overlay is a NaN, which is stored as 0: the blend then
    clears the channel even where the overlay is empty. *)
Lemma addWeighted_channel_infinite (alpha : Q) (a b : Z) :
  fits_float32 alpha = false → addWeighted_channel 1 alpha 0 a b = 0.
Proof.
  intros Hfit. unfold addWeighted_channel, to_float32 at 2. rewrite Hfit.
  unfold f32_mul at 2. by destruct (f32_mul _ _).
Qed.

Lemma same_shape_eq {A B} (a : list (list A)) (b : list (list B)) :
  same_shape a b = true ↔ length <$> a = length <$> b.
Proof. unfold same_shape. apply bool_decide_eq_true. Qed.

Lemma shape_zip_with {A B C} (f : A → B → C) (a : list (list A)) (b : list (list B)) :
  length <$> a = length <$> b →
  length <$> zip_with (zip_with f) a b = length <$> a.
Proof.
  revert b. induction a as [|ra a IH]; intros [|rb b] E; simplify_eq/=; [done|].
  f_equal; [|by apply IH].
  rewrite length_zip_with. lia.
Qed.

Lemma shape_fmap {A B} (f : A → B) (a : list (list A)) :
  length <$> ((λ row : list A, f <$> row) <$> a) = length <$> a.
Proof.
  apply list_eq. intros r. rewrite !list_lookup_fmap.
  destruct (a !! r) as [ra|]; simpl; [|done]. by rewrite length_fmap.
Qed.

Lemma shape_paint (covers : Z → Z → bool) (color : Pixel) (img : Frame) :
  length <$> paint covers color img = length <$> img.
Proof.
  unfold paint. apply list_eq. intros y.
  rewrite !list_lookup_fmap, list_lookup_imap.
  destruct (img !! y) as [row|]; simpl; [|done].
  by rewrite length_imap.
Qed.

Lemma at_px_zip_with {A B C} (f : A → B → C) (a : list (list A))
    (b : list (list B)) (r c : nat) :
  length <$> a = length <$> b →
  at_px (zip_with (zip_with f) a b) r c
  = at_px a r c ≫= λ x, at_px b r c ≫= λ y, Some (f x y).
Proof.
  intros E. unfold at_px. rewrite lookup_zip_with.
  destruct (a !! r) as [ra|] eqn:Ea; simpl; [|done].
  destruct (b !! r) as [rb|] eqn:Eb; simpl.
  - rewrite lookup_zip_with. by destruct (ra !! c).
  - assert (Hn : (length <$> b) !! r = None) by by rewrite list_lookup_fmap, Eb.
    rewrite <- E, list_lookup_fmap, Ea in Hn. done.
Qed.

Lemma at_px_fmap {A B} (f : A → B) (a : list (list A)) (r c : nat) :
  at_px ((λ row : list A, f <$> row) <$> a) r c = f <$> at_px a r c.
Proof.
  unfold at_px. rewrite list_lookup_fmap.
  destruct (a !! r) as [ra|]; simpl; [|done]. by rewrite list_lookup_fmap.
Qed.

Lemma at_px_paint (covers : Z → Z → bool) (color : Pixel) (img : Frame) (r c : nat) :
  at_px (paint covers color img) r c
  = (λ p, if covers (Z.of_nat c) (Z.of_nat r) then color else p) <$> at_px img r c.
Proof.
  unfold at_px, paint. rewrite list_lookup_imap.
  destruct (img !! r) as [row|]; simpl; [|done]. by rewrite list_lookup_imap.
Qed.

Lemma at_px_shape {A B} (a : list (list A)) (b : list (list B)) (r c : nat) :
  length <$> a = length <$> b → is_Some (at_px a r c) → is_Some (at_px b r c).
Proof.
  intros E [x Hx]. unfold at_px in *.
  destruct (a !! r) as [ra|] eqn:Ea; simplify_eq/=.
  assert (Hl : (length <$> b) !! r = Some (length ra)).
  { by rewrite <- E, list_lookup_fmap, Ea. }
  rewrite list_lookup_fmap in Hl.
  destruct (b !! r) as [rb|]; simplify_eq/=.
  apply lookup_lt_is_Some. apply lookup_lt_Some in Hx. lia.
Qed.

(** Two arrays of the same shape with the same pixels are the same array. *)
Lemma array_ext {A} (a b : list (list A)) :
  length <$> a = length <$> b →
  (∀ r c, at_px a r c = at_px b r c) → a = b.
Proof.
  intros E Hpx. apply list_eq. intros r.
  pose proof (f_equal (λ l, l !! r) E) as Er. simpl in Er.
  rewrite !list_lookup_fmap in Er.
  destruct (a !! r) as [ra|] eqn:Ea, (b !! r) as [rb|] eqn:Eb; simplify_eq/=; [|done].
  f_equal. apply list_eq. intros c.
  specialize (Hpx r c). unfold at_px in Hpx. by rewrite Ea, Eb in Hpx.
Qed.

Lemma frame_u8_px (f : Frame) (r c : nat) (p : Pixel) :
  frame_u8 f = true → at_px f r c = Some p → pixel_u8 p = true.
Proof.
  unfold frame_u8, at_px. intros Hf Hp.
  destruct (f !! r) as [row|] eqn:Er; simplify_eq/=.
  rewrite forallb_forall in Hf.
  assert (Hrow : forallb pixel_u8 row = true).
  { apply Hf. apply list_elem_of_In. eapply list_elem_of_lookup_2; eauto. }
  rewrite forallb_forall in Hrow. apply Hrow.
  apply list_elem_of_In. eapply list_elem_of_lookup_2; eauto.
Qed.

Lemma addWeighted_px_zero (alpha : Q) (p : Pixel) :
  fits_float32 alpha = true →
  pixel_u8 p = true → addWeighted_px 1 alpha 0 p (0, 0, 0) = p.
Proof.
  destruct p as [[a b] c]. unfold pixel_u8. intros Hfit Hp.
  apply andb_true_iff in Hp as [Hp Hc]. apply andb_true_iff in Hp as [Ha Hb].
  unfold addWeighted_px. by rewrite !addWeighted_channel_zero.
Qed.

(** ** The blending step *)

Section Render.
Context `{NumpyRandom, Cv2}.

Lemma blend_mask_run (frame : loc) (colors : list Pixel) (alpha : Q)
    (annotated : loc) (mask : Mask) (class_id : Z) (w : World)
    (fr src : Frame) (color : Pixel) :
  heap w !! frame = Some fr →
  heap w !! annotated = Some src →
  length <$> src = length <$> fr →
  length <$> cv2_resize mask (width fr, height fr) = length <$> fr →
  np_getitem colors class_id = Ok color →
  ∃ dst : Frame,
    blend_mask frame colors alpha annotated mask class_id w
      = (Ok (length (heap w), color), set_heap (heap w ++ [dst]) w) ∧
    length <$> dst = length <$> src ∧
    ∀ r c, at_px dst r c
      = at_px src r c ≫= λ p,
        at_px (cv2_resize mask (width fr, height fr)) r c ≫= λ v,
        Some (addWeighted_px 1 alpha 0 p
                (if Qle_bool v (1 # 2) then (0, 0, 0) else color)).
Proof.
  intros Hfr Hsrc Ess Emr Hcol.
  set (mr := cv2_resize mask (width fr, height fr)) in *.
  assert (Ezt : length <$> zeros_like fr = length <$> threshold mr).
  { unfold zeros_like, threshold. by rewrite !shape_fmap. }
  set (cm := zip_with (zip_with (λ (p : Pixel) (b : Z), if b =? 1 then color else p))
               (zeros_like fr) (threshold mr)).
  assert (Ecm : length <$> cm = length <$> fr).
  { unfold cm. rewrite shape_zip_with by done. unfold zeros_like. by rewrite shape_fmap. }
  exists (zip_with (zip_with (addWeighted_px 1 alpha 0)) src cm).
  split; [|split].
  - unfold blend_mask, bind, lift, load, alloc, ret. rewrite Hcol, Hfr.
    fold mr. unfold setitem_mask.
    rewrite (proj2 (same_shape_eq _ _) Ezt). fold cm. rewrite Hsrc.
    unfold addWeighted. rewrite (proj2 (same_shape_eq src cm)) by congruence.
    reflexivity.
  - apply shape_zip_with. congruence.
  - intros r c. rewrite at_px_zip_with by congruence.
    destruct (at_px src r c) as [p|] eqn:Ep; simpl; [|done].
    unfold cm. rewrite at_px_zip_with by done.
    unfold zeros_like, threshold. rewrite !at_px_fmap.
    destruct (at_px fr r c) as [q|] eqn:Eq; simpl.
    + destruct (at_px mr r c) as [v|]; simpl; [|done].
      by destruct (Qle_bool v (1 # 2)).
    + destruct (at_px_shape src fr r c Ess) as [q Hq]; [by eexists|]. congruence.
Qed.

End Render.

(** ** Drawing calls and the loop body *)

Section Render.
Context `{NumpyRandom, Cv2}.

Lemma load_ok (w : World) (l : loc) (f : Frame) :
  heap w !! l = Some f → load l w = (Ok f, w).
Proof. intros E. unfold load. by rewrite E. Qed.

Lemma cv2_rectangle_run (img : loc) (pt1 pt2 : Z * Z) (color : Pixel)
    (thickness : Z) (w : World) (f : Frame) :
  heap w !! img = Some f →
  cv2_rectangle img pt1 pt2 color thickness w
  = (Ok tt, set_heap (<[img := paint (rectangle_covers pt1 pt2 thickness) color f]> (heap w)) w).
Proof. intros E. unfold cv2_rectangle, bind. by rewrite (load_ok _ _ _ E). Qed.

Lemma cv2_putText_run (img : loc) (text : string) (org : Z * Z) (scale : Q)
    (color : Pixel) (thickness : Z) (w : World) (f : Frame) :
  heap w !! img = Some f →
  cv2_putText img text org scale color thickness w
  = (Ok tt, set_trace (EvPutText text :: trace w)
      (set_heap (<[img := paint (putText_covers text org scale thickness) color f]> (heap w)) w)).
Proof. intros E. unfold cv2_putText, bind. by rewrite (load_ok _ _ _ E). Qed.

Lemma draw_box_label_run (results : Results) (a : loc) (box : BoxRow)
    (class_id : Z) (color : Pixel) (w : World) (img : Frame) (name : string) :
  heap w !! a = Some img →
  names_get (names results) class_id = Some name →
  draw_box_label results a box class_id color w
  = (Ok tt, set_trace (EvPutText (label_text name (box_conf box)) :: trace w)
      (set_heap (<[a := box_and_label box color (label_text name (box_conf box)) img]>
                  (heap w)) w)).
Proof.
  intros Ha Hn. unfold draw_box_label, box_and_label, bind.
  assert (Hlt : (a < length (heap w))%nat) by by eapply lookup_lt_Some.
  erewrite cv2_rectangle_run by done. unfold lift. rewrite Hn.
  destruct (cv2_getTextSize _ _ _) as [tw th].
  erewrite cv2_rectangle_run by (simpl; by apply list_lookup_insert_eq).
  erewrite cv2_putText_run
    by (simpl; apply list_lookup_insert_eq; by rewrite length_insert).
  unfold set_trace, set_heap; simpl. by rewrite !list_insert_insert_eq.
Qed.

Lemma insert_snoc {A} (l : list A) (x y : A) :
  <[length l := y]> (l ++ [x]) = l ++ [y].
Proof.
  induction l as [|z l IH]; simpl; [done|]. by f_equal.
Qed.

Lemma draw_detection_run (frame : loc) (results : Results) (colors : list Pixel)
    (alpha : Q) (annotated : loc) (mask : Mask) (box : BoxRow) (class_id : Z)
    (w : World) (fr src : Frame) (color : Pixel) (name : string) :
  heap w !! frame = Some fr →
  heap w !! annotated = Some src →
  length <$> src = length <$> fr →
  length <$> cv2_resize mask (width fr, height fr) = length <$> fr →
  np_getitem colors class_id = Ok color →
  names_get (names results) class_id = Some name →
  ∃ dst : Frame,
    draw_detection frame results colors alpha annotated (mask, box, class_id) w
      = (Ok (length (heap w)),
         set_trace (EvPutText (label_text name (box_conf box)) :: trace w)
           (set_heap (heap w ++ [box_and_label box color
                                   (label_text name (box_conf box)) dst]) w)) ∧
    length <$> dst = length <$> src ∧
    ∀ r c, at_px dst r c
      = at_px src r c ≫= λ p,
        at_px (cv2_resize mask (width fr, height fr)) r c ≫= λ v,
        Some (addWeighted_px 1 alpha 0 p
                (if Qle_bool v (1 # 2) then (0, 0, 0) else color)).
Proof.
  intros Hfr Hsrc Ess Emr Hcol Hn.
  destruct (blend_mask_run frame colors alpha annotated mask class_id w
              fr src color Hfr Hsrc Ess Emr Hcol) as (dst & Hrun & Hshape & Hpx).
  exists dst. split; [|done].
  unfold draw_detection, bind. rewrite Hrun.
  erewrite draw_box_label_run; [|simpl; by apply list_lookup_middle|done].
  unfold ret, set_trace, set_heap; simpl. by rewrite insert_snoc.
Qed.

End Render.

(** ** What the renderer leaves untouched *)

Section Render.
Context `{NumpyRandom, Cv2}.

Lemma renders_refl (w : World) : renders w w.
Proof.
  repeat split; try done; [exists []; by rewrite app_nil_r | by exists []].
Qed.

Lemma renders_trans (w1 w2 w3 : World) :
  renders w1 w2 → renders w2 w3 → renders w1 w3.
Proof.
  intros ([k1 E1] & [t1 T1] & ? & ? & ? & ? & ? & ?)
         ([k2 E2] & [t2 T2] & ? & ? & ? & ? & ? & ?).
  repeat split; try congruence.
  - exists (k1 ++ k2). by rewrite E2, E1, app_assoc.
  - exists (t2 ++ t1). by rewrite T2, T1, fmap_app, app_assoc.
Qed.

Lemma renders_heap (w : World) (h : list Frame) :
  (∃ k, h = heap w ++ k) → renders w (set_heap h w).
Proof. intros Hk. repeat split; try done. by exists []. Qed.

Lemma np_getitem_not_fuel {A} (a : list A) (i : Z) :
  np_getitem a i ≠ Raise OutOfFuel.
Proof. unfold np_getitem. repeat case_match; done. Qed.

Lemma setitem_mask_not_fuel (a : Frame) (m : list (list Z)) (color : Pixel) :
  setitem_mask a m color ≠ Raise OutOfFuel.
Proof. unfold setitem_mask. by case_match. Qed.

Lemma addWeighted_not_fuel (a : Frame) (alpha : Q) (b : Frame) (beta gamma : Q) :
  addWeighted a alpha b beta gamma ≠ Raise OutOfFuel.
Proof. unfold addWeighted. by case_match. Qed.

Lemma blend_mask_renders (frame : loc) (colors : list Pixel) (alpha : Q)
    (annotated : loc) (mask : Mask) (class_id : Z) (w w' : World)
    (o : outcome (loc * Pixel)) :
  blend_mask frame colors alpha annotated mask class_id w = (o, w') →
  match o with
  | Ok (a, _) => a = length (heap w) ∧ ∃ dst, w' = set_heap (heap w ++ [dst]) w
  | Raise e => e ≠ OutOfFuel ∧ w' = w
  end.
Proof.
  unfold blend_mask, bind, lift, load, alloc, ret. intros E.
  pose proof (np_getitem_not_fuel colors class_id).
  destruct (np_getitem colors class_id) as [color|e]; [|simplify_eq; split; congruence].
  destruct (heap w !! frame) as [fr|]; [|by simplify_eq].
  pose proof (setitem_mask_not_fuel (zeros_like fr)
    (threshold (cv2_resize mask (width fr, height fr))) color).
  destruct (setitem_mask _ _ _) as [cm|e]; [|simplify_eq; split; congruence].
  destruct (heap w !! annotated) as [src|]; [|by simplify_eq].
  pose proof (addWeighted_not_fuel src 1 cm alpha 0).
  destruct (addWeighted _ _ _ _ _) as [dst|e]; [|simplify_eq; split; congruence].
  simplify_eq. eauto.
Qed.

Lemma draw_box_label_renders (results : Results) (a : loc) (box : BoxRow)
    (class_id : Z) (color : Pixel) (w w' : World) (o : outcome unit) :
  draw_box_label results a box class_id color w = (o, w') →
  (heap w' = heap w ∨ ∃ x, heap w' = <[a := x]> (heap w)) ∧
  (∃ texts, trace w' = (EvPutText <$> texts) ++ trace w) ∧
  clock w' = clock w ∧ clock_reads w' = clock_reads w ∧
  cap_frames w' = cap_frames w ∧ cap_opened w' = cap_opened w ∧
  keys w' = keys w ∧ key_polls w' = key_polls w ∧
  o ≠ Raise OutOfFuel.
Proof.
  intros E.
  destruct (heap w !! a) as [img|] eqn:Ha.
  - destruct (names_get (names results) class_id) as [name|] eqn:Hn.
    + rewrite (draw_box_label_run _ _ _ _ _ _ img name Ha Hn) in E.
      simplify_eq. simpl. repeat split; eauto. by exists [label_text name (box_conf box)].
    + unfold draw_box_label, bind in E.
      rewrite (cv2_rectangle_run _ _ _ _ _ _ img Ha) in E.
      unfold lift in E. rewrite Hn in E. simplify_eq. simpl.
      repeat split; eauto. by exists [].
  - unfold draw_box_label, bind, cv2_rectangle, bind, load in E.
    rewrite Ha in E. simplify_eq. repeat split; eauto. by exists [].
Qed.

Lemma draw_detection_renders (frame : loc) (results : Results)
    (colors : list Pixel) (alpha : Q) (annotated : loc)
    (det : Mask * BoxRow * Z) (w w' : World) (o : outcome loc) :
  draw_detection frame results colors alpha annotated det w = (o, w') →
  renders w w' ∧
  match o with
  | Ok a => (length (heap w) ≤ a < length (heap w'))%nat
  | Raise e => e ≠ OutOfFuel
  end.
Proof.
  destruct det as [[mask box] class_id]. unfold draw_detection, bind. intros E.
  destruct (blend_mask _ _ _ _ _ _ w) as [r w1] eqn:Eb.
  apply blend_mask_renders in Eb.
  destruct r as [[a color]|e]; [|destruct Eb; simplify_eq; split; [apply renders_refl|done]].
  destruct Eb as [-> [dst ->]].
  destruct (draw_box_label _ _ _ _ _ _) as [r w2] eqn:Ed.
  apply draw_box_label_renders in Ed. simpl in Ed.
  destruct Ed as (Hh & Ht & ? & ? & ? & ? & ? & ? & Hf).
  assert (Hk : ∃ x, heap w2 = heap w ++ [x]).
  { destruct Hh as [->|[x ->]]; [by eexists|]. exists x. apply insert_snoc. }
  destruct Hk as [x Hx].
  assert (renders w w2).
  { repeat split; try done. by exists [x]. }
  destruct r as [[]|e]; unfold ret in E; simplify_eq; split; try done.
  - rewrite Hx, length_app. simpl. lia.
  - congruence.
Qed.

Lemma for_each_renders {B} (body : loc → B → M loc) (l : list B) :
  (∀ a x w w' o, body a x w = (o, w') →
     renders w w' ∧
     match o with
     | Ok a' => (length (heap w) ≤ a' < length (heap w'))%nat
     | Raise e => e ≠ OutOfFuel
     end) →
  ∀ a w o w', for_each body a l w = (o, w') →
    renders w w' ∧
    match o with
    | Ok a' => a' = a ∧ heap w' = heap w ∨ (length (heap w) ≤ a' < length (heap w'))%nat
    | Raise e => e ≠ OutOfFuel
    end.
Proof.
  intros Hbody. induction l as [|x l IH]; intros a w o w' E; simpl in E.
  - unfold ret in E. simplify_eq. split; [apply renders_refl|by left].
  - unfold bind in E. destruct (body a x w) as [r w1] eqn:Eb.
    apply Hbody in Eb as [Hr1 Ha].
    destruct r as [a1|e]; [|simplify_eq; done].
    apply IH in E as [Hr2 Ho]. split; [by eapply renders_trans|].
    destruct o as [a'|e]; [|done]. right.
    destruct Hr2 as [[k Hk] _].
    destruct Ho as [[-> Eh]|Hlt].
    + rewrite Eh. lia.
    + rewrite Hk, length_app in *. lia.
Qed.

Lemma class_colors_run (seed : Z) (n : nat) (w : World) :
  class_colors seed n w
  = (Ok (draw_rows 0 255 n (seed_state seed)).1,
     set_np_random (draw_rows 0 255 n (seed_state seed)).2 w).
Proof.
  unfold class_colors, bind, np_random_seed, np_random_randint. simpl.
  by destruct (draw_rows 0 255 n (seed_state seed)).
Qed.

Lemma custom_visualization_renders (frame : loc) (results : Results)
    (alpha : Q) (w w' : World) (o : outcome loc) :
  custom_visualization frame results alpha w = (o, w') →
  renders w w' ∧
  match o with
  | Ok a => (length (heap w) ≤ a < length (heap w'))%nat
  | Raise e => e ≠ OutOfFuel
  end.
Proof.
  unfold custom_visualization, bind, load, alloc. intros E.
  destruct (heap w !! frame) as [fr|]; [|simplify_eq; split; [apply renders_refl|done]].
  set (w1 := set_heap (heap w ++ [fr]) w) in *.
  assert (Hr1 : renders w w1) by (apply renders_heap; by eexists).
  destruct (masks results) as [ms|].
  - rewrite class_colors_run in E.
    set (w2 := set_np_random _ w1) in *.
    assert (Hr2 : renders w1 w2) by (repeat split; try done; [exists []; by rewrite app_nil_r | by exists []]).
    apply (for_each_renders _ _ (draw_detection_renders frame results _ alpha)) in E
      as [Hr3 Ho].
    split; [eauto using renders_trans|].
    destruct o as [a|e]; [|done].
    destruct Hr3 as [[k Hk] _].
    assert (Hl2 : length (heap w2) = S (length (heap w))).
    { simpl. rewrite length_app. simpl. lia. }
    destruct Ho as [[-> Eh]|Hlt].
    + rewrite Eh, Hl2. lia.
    + rewrite Hl2 in Hlt. lia.
  - unfold ret in E. simplify_eq. split; [done|]. simpl. rewrite length_app. simpl. lia.
Qed.

End Render.

(** ** The renderer, claim by claim *)

Lemma addWeighted_px_script (alpha : Q) (p color : Pixel) :
  pixel_u8 p = true →
  addWeighted_px 1 alpha 0 p color = composite_f32_px alpha p color.
Proof.
  destruct p as [[p0 p1] p2], color as [[c0 c1] c2]. unfold pixel_u8. intros Hp.
  apply andb_true_iff in Hp as [Hp H2]. apply andb_true_iff in Hp as [H0 H1].
  apply u8_bounds in H0, H1, H2.
  unfold addWeighted_px, composite_f32_px.
  by rewrite !addWeighted_channel_script by (simpl; lia).
Qed.

Lemma composite_f32_px_u8 (alpha : Q) (p color : Pixel) :
  pixel_u8 (composite_f32_px alpha p color) = true.
Proof.
  destruct p as [[p0 p1] p2], color as [[c0 c1] c2].
  unfold composite_f32_px, composite_f32_channel, saturate_cast, pixel_u8.
  by rewrite !clamp_is_u8.
Qed.

Lemma composite_f32_px_near (alpha : Q) (p color : Pixel) :
  (0 <= alpha <= 1)%Q → pixel_u8 p = true → pixel_u8 color = true →
  levels_apart (composite_f32_px alpha p color) (composite_px alpha p color) ≤ 1.
Proof.
  destruct p as [[p0 p1] p2], color as [[c0 c1] c2]. unfold pixel_u8.
  intros Ha Hp Hc.
  apply andb_true_iff in Hp as [Hp H2]. apply andb_true_iff in Hp as [H0 H1].
  apply andb_true_iff in Hc as [Hc C2]. apply andb_true_iff in Hc as [C0 C1].
  unfold levels_apart, composite_f32_px, composite_px.
  pose proof (composite_f32_channel_near alpha p0 c0 Ha H0 C0).
  pose proof (composite_f32_channel_near alpha p1 c1 Ha H1 C1).
  pose proof (composite_f32_channel_near alpha p2 c2 Ha H2 C2).
  lia.
Qed.

Lemma Qle_bool_false (x y : Q) : Qle_bool x y = false ↔ (y < x)%Q.
Proof.
  split.
  - intros E. apply Qnot_le_lt. intros Hle. apply Qle_bool_iff in Hle. congruence.
  - intros Hlt. destruct (Qle_bool x y) eqn:E; [|done].
    apply Qle_bool_iff in E. by apply Qlt_not_le in Hlt.
Qed.

Section Render.
Context `{NumpyRandom, Cv2}.

(** C1, amended. The blending step of one detection: inside the thresholded
    mask a pixel becomes [clamp(round(frame[p] + alpha * color), 0, 255)] on
    every channel, where alpha, the product and the sum are rounded to single
    precision and the sum is stored through a 32-bit integer; the result is
    an 8-bit value, and for alpha between 0 and 1 and an 8-bit colour it is
    within one level of the formula in exact arithmetic. Outside the mask the
    pixel is unchanged, provided alpha is in the range of single
    precision. *)
Theorem mask_composite_pixel (frame : loc) (colors : list Pixel) (alpha : Q)
    (annotated : loc) (mask : Mask) (class_id : Z) (w : World)
    (fr src : Frame) (color : Pixel) :
  heap w !! frame = Some fr →
  heap w !! annotated = Some src →
  frame_u8 src = true →
  length <$> src = length <$> fr →
  length <$> cv2_resize mask (width fr, height fr) = length <$> fr →
  np_getitem colors class_id = Ok color →
  ∃ dst : Frame,
    blend_mask frame colors alpha annotated mask class_id w
      = (Ok (length (heap w), color), set_heap (heap w ++ [dst]) w) ∧
    ∀ (r c : nat) (p : Pixel) (v : Q),
      at_px src r c = Some p →
      at_px (cv2_resize mask (width fr, height fr)) r c = Some v →
      ((1 # 2 < v)%Q →
         at_px dst r c = Some (composite_f32_px alpha p color) ∧
         pixel_u8 (composite_f32_px alpha p color) = true ∧
         ((0 <= alpha <= 1)%Q → pixel_u8 color = true →
            levels_apart (composite_f32_px alpha p color)
              (composite_px alpha p color) ≤ 1)) ∧
      ((v <= 1 # 2)%Q → fits_float32 alpha = true → at_px dst r c = Some p).
Proof.
  intros Hfr Hsrc Hu8 Ess Emr Hcol.
  destruct (blend_mask_run frame colors alpha annotated mask class_id w
              fr src color Hfr Hsrc Ess Emr Hcol) as (dst & Hrun & _ & Hpx).
  exists dst. split; [done|]. intros r c p v Hp Hv.
  assert (Hp8 : pixel_u8 p = true) by by eapply frame_u8_px.
  rewrite Hpx, Hp, Hv. simpl. split.
  - intros Hlt. apply Qle_bool_false in Hlt. rewrite Hlt.
    rewrite addWeighted_px_script by done. split; [done|].
    split; [apply composite_f32_px_u8|].
    intros Ha Hc. by apply composite_f32_px_near.
  - intros Hle Hfit. apply Qle_bool_iff in Hle. rewrite Hle.
    by rewrite addWeighted_px_zero.
Qed.

(** X6. With alpha between 0 and 1 and an 8-bit class colour the blending
    step of a detection never darkens a pixel and never leaves the 8-bit
    range: every channel of the new image lies between its level in the old
    image and 255. *)
Theorem blend_brightens_only (frame : loc) (colors : list Pixel) (alpha : Q)
    (annotated : loc) (mask : Mask) (class_id : Z) (w : World)
    (fr src : Frame) (color : Pixel) :
  heap w !! frame = Some fr →
  heap w !! annotated = Some src →
  frame_u8 src = true →
  length <$> src = length <$> fr →
  length <$> cv2_resize mask (width fr, height fr) = length <$> fr →
  np_getitem colors class_id = Ok color →
  pixel_u8 color = true →
  (0 <= alpha <= 1)%Q →
  ∃ dst : Frame,
    blend_mask frame colors alpha annotated mask class_id w
      = (Ok (length (heap w), color), set_heap (heap w ++ [dst]) w) ∧
    ∀ (r c : nat) (p : Pixel),
      at_px src r c = Some p →
      ∃ q : Pixel,
        at_px dst r c = Some q ∧ pixel_u8 q = true ∧ px_le p q = true.
Proof.
  intros Hfr Hsrc Hu8 Ess Emr Hcol Hc8 Ha.
  pose proof (fits_float32_unit alpha Ha) as Hfit.
  destruct (blend_mask_run frame colors alpha annotated mask class_id w
              fr src color Hfr Hsrc Ess Emr Hcol) as (dst & Hrun & _ & Hpx).
  exists dst. split; [done|]. intros r c p Hp.
  assert (Hp8 : pixel_u8 p = true) by by eapply frame_u8_px.
  destruct (at_px_shape src (cv2_resize mask (width fr, height fr)) r c)
    as [v Hv]; [congruence|by eexists|].
  rewrite Hpx, Hp, Hv. simpl.
  destruct (Qle_bool v (1 # 2)).
  - exists p. rewrite addWeighted_px_zero by done. split_and!; [done|done|].
    destruct p as [[p0 p1] p2]. unfold px_le.
    by rewrite !Z.leb_refl.
  - eexists. split; [reflexivity|].
    rewrite addWeighted_px_script by done.
    split; [apply composite_f32_px_u8|].
    destruct p as [[p0 p1] p2], color as [[c0 c1] c2].
    unfold pixel_u8 in Hp8, Hc8.
    apply andb_true_iff in Hp8 as [Hp8 P2]. apply andb_true_iff in Hp8 as [P0 P1].
    apply andb_true_iff in Hc8 as [Hc8 C2]. apply andb_true_iff in Hc8 as [C0 C1].
    unfold px_le, composite_f32_px.
    pose proof (composite_f32_channel_bright alpha p0 c0 Ha P0 C0).
    pose proof (composite_f32_channel_bright alpha p1 c1 Ha P1 C1).
    pose proof (composite_f32_channel_bright alpha p2 c2 Ha P2 C2).
    rewrite !andb_true_iff, !Z.leb_le. lia.
Qed.

Lemma at_px_box_and_label (box : BoxRow) (color : Pixel) (label : string)
    (img : Frame) (r c : nat) :
  box_label_covers box label (Z.of_nat c) (Z.of_nat r) = false →
  at_px (box_and_label box color label img) r c = at_px img r c.
Proof.
  unfold box_label_covers, box_and_label.
  destruct (cv2_getTextSize label (1 # 2) 2) as [tw th].
  intros Hc. apply orb_false_iff in Hc as [Hc H3].
  apply orb_false_iff in Hc as [H1 H2].
  rewrite !at_px_paint, H1, H2, H3.
  by destruct (at_px img r c).
Qed.

Lemma shape_box_and_label (box : BoxRow) (color : Pixel) (label : string)
    (img : Frame) :
  length <$> box_and_label box color label img = length <$> img.
Proof.
  unfold box_and_label. destruct (cv2_getTextSize label (1 # 2) 2) as [tw th].
  by rewrite !shape_paint.
Qed.

(** C9, amended. A detection whose resized mask has no value above 0.5,
    blended with an alpha in the range of single precision: the blending
    step yields an image equal to the one it started from, and the box and
    label of the detection are then drawn on it. *)
Theorem empty_mask_blend_noop (frame : loc) (results : Results)
    (colors : list Pixel) (alpha : Q) (annotated : loc) (mask : Mask)
    (box : BoxRow) (class_id : Z) (w : World) (fr src : Frame) (color : Pixel)
    (name : string) :
  heap w !! frame = Some fr →
  heap w !! annotated = Some src →
  frame_u8 src = true →
  length <$> src = length <$> fr →
  length <$> cv2_resize mask (width fr, height fr) = length <$> fr →
  np_getitem colors class_id = Ok color →
  names_get (names results) class_id = Some name →
  (∀ r c v, at_px (cv2_resize mask (width fr, height fr)) r c = Some v →
            (v <= 1 # 2)%Q) →
  fits_float32 alpha = true →
  blend_mask frame colors alpha annotated mask class_id w
    = (Ok (length (heap w), color), set_heap (heap w ++ [src]) w) ∧
  draw_detection frame results colors alpha annotated (mask, box, class_id) w
    = (Ok (length (heap w)),
       set_trace (EvPutText (label_text name (box_conf box)) :: trace w)
         (set_heap (heap w ++ [box_and_label box color
                                 (label_text name (box_conf box)) src]) w)).
Proof.
  intros Hfr Hsrc Hu8 Ess Emr Hcol Hn Hlow Hfit.
  assert (Hsame : ∀ dst : Frame,
    length <$> dst = length <$> src →
    (∀ r c, at_px dst r c
      = at_px src r c ≫= λ p,
        at_px (cv2_resize mask (width fr, height fr)) r c ≫= λ v,
        Some (addWeighted_px 1 alpha 0 p
                (if Qle_bool v (1 # 2) then (0, 0, 0) else color))) →
    dst = src).
  { intros dst Hshape Hpx. apply array_ext; [done|]. intros r c. rewrite Hpx.
    destruct (at_px src r c) as [p|] eqn:Ep; simpl; [|done].
    destruct (at_px_shape src (cv2_resize mask (width fr, height fr)) r c)
      as [v Hv]; [congruence|by eexists|].
    rewrite Hv. simpl.
    rewrite (proj2 (Qle_bool_iff _ _) (Hlow _ _ _ Hv)).
    rewrite addWeighted_px_zero; [done|done|]. by eapply frame_u8_px. }
  split.
  - destruct (blend_mask_run frame colors alpha annotated mask class_id w
                fr src color Hfr Hsrc Ess Emr Hcol) as (dst & Hrun & Hshape & Hpx).
    by rewrite Hrun, (Hsame dst Hshape Hpx).
  - destruct (draw_detection_run frame results colors alpha annotated mask box
                class_id w fr src color name Hfr Hsrc Ess Emr Hcol Hn)
      as (dst & Hrun & Hshape & Hpx).
    by rewrite Hrun, (Hsame dst Hshape Hpx).
Qed.

(** C7. With no detection to draw, the returned image is a copy of the
    frame, pixel for pixel, and the frame itself is as it was. *)
Theorem empty_detections_unchanged (frame : loc) (results : Results)
    (alpha : Q) (w : World) (fr : Frame) :
  heap w !! frame = Some fr →
  detections results = [] →
  ∃ w' : World,
    custom_visualization frame results alpha w = (Ok (length (heap w)), w') ∧
    heap w' !! length (heap w) = Some fr ∧
    heap w' !! frame = Some fr ∧
    heap w' = heap w ++ [fr] ∧
    trace w' = trace w.
Proof.
  intros Hfr Hd. unfold custom_visualization, bind, alloc.
  rewrite (load_ok _ _ _ Hfr).
  assert (Hlt : (frame < length (heap w))%nat) by by eapply lookup_lt_Some.
  destruct (masks results) as [ms|] eqn:Em.
  - rewrite class_colors_run, Hd. simpl. unfold ret. eexists. split; [done|]. simpl.
    split; [by apply list_lookup_middle|].
    split; [by rewrite lookup_app_l|done].
  - unfold ret. eexists. split; [done|]. simpl.
    split; [by apply list_lookup_middle|].
    split; [by rewrite lookup_app_l|done].
Qed.

(** C10. Without masks the renderer returns an untouched copy of the frame
    and does nothing else, whatever boxes the result holds; and in every
    case, also when it raises, all buffers that existed before the call,
    the frame among them, keep their content, the returned image being a
    new buffer. *)
Theorem no_masks_copy_only :
  (∀ (frame : loc) (results : Results) (alpha : Q) (w : World) (fr : Frame),
     masks results = None →
     heap w !! frame = Some fr →
     custom_visualization frame results alpha w
       = (Ok (length (heap w)), set_heap (heap w ++ [fr]) w)) ∧
  (∀ (frame : loc) (results : Results) (alpha : Q) (w w' : World)
     (o : outcome loc),
     custom_visualization frame results alpha w = (o, w') →
     (∀ (l : loc) (f : Frame), heap w !! l = Some f → heap w' !! l = Some f) ∧
     (∀ a : loc, o = Ok a → (length (heap w) ≤ a < length (heap w'))%nat)).
Proof.
  split.
  - intros frame results alpha w fr Em Hfr.
    unfold custom_visualization, bind, alloc.
    by rewrite (load_ok _ _ _ Hfr), Em.
  - intros frame results alpha w w' o E.
    apply custom_visualization_renders in E as [([k Hk] & _) Ho]. split.
    + intros l f Hl. rewrite Hk. rewrite lookup_app_l; [done|].
      by eapply lookup_lt_Some.
    + by intros a ->.
Qed.

(** C6. The colour table, and so the colour of a class, depends on the seed
    and the number of classes only: not on the state the generator was in,
    that is, not on what ran before. The image the renderer returns does not
    depend on that state either. *)
Theorem color_table_deterministic :
  (∀ (seed : Z) (num_classes : nat) (class_id : Z) (w1 w2 : World),
     (class_colors seed num_classes w1).1 = (class_colors seed num_classes w2).1 ∧
     (bind (class_colors seed num_classes)
        (λ colors, lift (np_getitem colors class_id)) w1).1
     = (bind (class_colors seed num_classes)
        (λ colors, lift (np_getitem colors class_id)) w2).1) ∧
  (∀ (frame : loc) (results : Results) (alpha : Q) (w : World) (g : rng_state),
     (custom_visualization frame results alpha (set_np_random g w)).1
       = (custom_visualization frame results alpha w).1 ∧
     heap (custom_visualization frame results alpha (set_np_random g w)).2
       = heap (custom_visualization frame results alpha w).2).
Proof.
  split.
  - intros seed n class_id w1 w2. unfold bind. by rewrite !class_colors_run.
  - intros frame results alpha w g.
    unfold custom_visualization, bind, load, alloc. simpl.
    destruct (heap w !! frame) as [fr|]; [|done].
    destruct (masks results) as [ms|]; [|done].
    by rewrite !class_colors_run.
Qed.

End Render.

(** ** Colour lookup and successive blends *)

Section Render.
Context `{NumpyRandom, Cv2}.

Lemma bind_ok {A B} (m : M A) (k : A → M B) (w : World) (a : A) (w' : World) :
  m w = (Ok a, w') → bind m k w = k a w'.
Proof. intros E. unfold bind. by rewrite E. Qed.

Lemma bind_raise {A B} (m : M A) (k : A → M B) (w : World) (e : Exn) (w' : World) :
  m w = (Raise e, w') → bind m k w = (Raise e, w').
Proof. intros E. unfold bind. by rewrite E. Qed.

Lemma for_each_nil {A B} (body : A → B → M A) (a : A) :
  for_each body a [] = ret a.
Proof. reflexivity. Qed.

Lemma for_each_cons {A B} (body : A → B → M A) (a : A) (x : B) (l : list B) :
  for_each body a (x :: l) = bind (body a x) (λ a', for_each body a' l).
Proof. reflexivity. Qed.

(** C8, amended. The colour lookup relies on the bounds check of array
    indexing: a class id at or beyond the number of classes, or below its
    negation, raises [IndexError] and the blending step stops there; a
    negative class id not below that negation is not rejected but selects
    the entry [class_id + numClasses]. *)
Theorem color_lookup_bounds (frame : loc) (colors : list Pixel) (alpha : Q)
    (annotated : loc) (mask : Mask) (class_id : Z) (w : World) :
  let n := Z.of_nat (length colors) in
  ((n ≤ class_id ∨ class_id < - n) →
     np_getitem colors class_id = Raise IndexError ∧
     blend_mask frame colors alpha annotated mask class_id w
       = (Raise IndexError, w)) ∧
  (- n ≤ class_id < 0 →
     ∃ color, colors !! Z.to_nat (class_id + n) = Some color ∧
              np_getitem colors class_id = Ok color) ∧
  (0 ≤ class_id < n →
     ∃ color, colors !! Z.to_nat class_id = Some color ∧
              np_getitem colors class_id = Ok color).
Proof.
  intros n. split; [|split].
  - intros Hout.
    assert (E : np_getitem colors class_id = Raise IndexError).
    { unfold np_getitem. fold n.
      destruct (class_id <? 0) eqn:Hneg.
      - apply Z.ltb_lt in Hneg.
        assert (Hf : (0 <=? class_id + n) && (class_id + n <? n) = false).
        { apply andb_false_iff. left. apply Z.leb_gt. lia. }
        by rewrite Hf.
      - apply Z.ltb_ge in Hneg.
        assert (Hf : (0 <=? class_id) && (class_id <? n) = false).
        { apply andb_false_iff. right. apply Z.ltb_ge. lia. }
        by rewrite Hf. }
    split; [done|]. unfold blend_mask, bind, lift. by rewrite E.
  - intros Hin.
    assert (Hlt : (Z.to_nat (class_id + n) < length colors)%nat) by (subst n; lia).
    destruct (lookup_lt_is_Some_2 colors _ Hlt) as [color Hc].
    exists color. split; [done|].
    unfold np_getitem. fold n.
    assert (Hneg : (class_id <? 0) = true) by (apply Z.ltb_lt; lia).
    assert (Ht : (0 <=? class_id + n) && (class_id + n <? n) = true).
    { apply andb_true_iff. split; [apply Z.leb_le|apply Z.ltb_lt]; lia. }
    by rewrite Hneg, Ht, Hc.
  - intros Hin.
    assert (Hlt : (Z.to_nat class_id < length colors)%nat) by (subst n; lia).
    destruct (lookup_lt_is_Some_2 colors _ Hlt) as [color Hc].
    exists color. split; [done|].
    unfold np_getitem. fold n.
    assert (Hneg : (class_id <? 0) = false) by (apply Z.ltb_ge; lia).
    assert (Ht : (0 <=? class_id) && (class_id <? n) = true).
    { apply andb_true_iff. split; [apply Z.leb_le|apply Z.ltb_lt]; lia. }
    by rewrite Hneg, Ht, Hc.
Qed.

(** C2, amended. Two detections whose thresholded masks both cover a pixel
    that none of their boxes and labels paints: the pixel of the returned
    image is the frame pixel blended with the first colour, rounded and
    clamped to 8 bits, and that result blended with the second colour,
    rounded and clamped again, each blend being computed in single
    precision as in C1. *)
Theorem two_masks_composite_in_order (frame : loc) (results : Results)
    (alpha : Q) (w : World) (fr : Frame)
    (m1 m2 : Mask) (b1 b2 : BoxRow) (k1 k2 : Z) (color1 color2 : Pixel)
    (n1 n2 : string) (r c : nat) (p : Pixel) (v1 v2 : Q) :
  let colors := (draw_rows 0 255 (names_len (names results)) (seed_state 42)).1 in
  heap w !! frame = Some fr →
  masks results = Some [m1; m2] →
  detections results = [(m1, b1, k1); (m2, b2, k2)] →
  length <$> cv2_resize m1 (width fr, height fr) = length <$> fr →
  length <$> cv2_resize m2 (width fr, height fr) = length <$> fr →
  np_getitem colors k1 = Ok color1 →
  np_getitem colors k2 = Ok color2 →
  names_get (names results) k1 = Some n1 →
  names_get (names results) k2 = Some n2 →
  at_px fr r c = Some p →
  pixel_u8 p = true →
  at_px (cv2_resize m1 (width fr, height fr)) r c = Some v1 →
  at_px (cv2_resize m2 (width fr, height fr)) r c = Some v2 →
  (1 # 2 < v1)%Q →
  (1 # 2 < v2)%Q →
  box_label_covers b1 (label_text n1 (box_conf b1)) (Z.of_nat c) (Z.of_nat r) = false →
  box_label_covers b2 (label_text n2 (box_conf b2)) (Z.of_nat c) (Z.of_nat r) = false →
  ∃ (a : loc) (w' : World) (out : Frame),
    custom_visualization frame results alpha w = (Ok a, w') ∧
    heap w' !! a = Some out ∧
    heap w' !! frame = Some fr ∧
    at_px out r c
    = Some (composite_f32_px alpha (composite_f32_px alpha p color1) color2).
Proof.
  intros colors Hfr Hm Hd S1 S2 C1 C2 N1 N2 Hp Hp8 V1 V2 L1 L2 B1 B2.
  assert (Hlt : (frame < length (heap w))%nat) by by eapply lookup_lt_Some.
  unfold custom_visualization.
  rewrite (bind_ok _ _ _ _ _ (load_ok _ _ _ Hfr)).
  rewrite (bind_ok (alloc fr) _ w _ _ eq_refl), Hm.
  rewrite (bind_ok _ _ _ _ _ (class_colors_run _ _ _)). fold colors. rewrite Hd.
  rewrite for_each_cons.
  set (w1 := set_np_random _ _).
  assert (Hfr1 : heap w1 !! frame = Some fr) by (simpl; by rewrite lookup_app_l).
  assert (Ha1 : heap w1 !! length (heap w) = Some fr) by (simpl; by apply list_lookup_middle).
  destruct (draw_detection_run frame results colors alpha (length (heap w)) m1 b1 k1
              w1 fr fr color1 n1 Hfr1 Ha1 eq_refl S1 C1 N1)
    as (dst1 & Hrun1 & Hsh1 & Hpx1).
  rewrite (bind_ok _ _ _ _ _ Hrun1), for_each_cons.
  set (x1 := box_and_label b1 color1 (label_text n1 (box_conf b1)) dst1).
  set (w2 := set_trace _ _).
  assert (Hl1 : length (heap w1) = S (length (heap w))).
  { simpl. rewrite length_app. simpl. lia. }
  assert (Hfr2 : heap w2 !! frame = Some fr).
  { simpl. rewrite !lookup_app_l; [done|lia|]. rewrite length_app. simpl. lia. }
  assert (Ha2 : heap w2 !! length (heap w1) = Some x1).
  { simpl. apply (list_lookup_middle _ [] x1). by rewrite length_app. }
  assert (Hshx : length <$> x1 = length <$> fr).
  { unfold x1. by rewrite shape_box_and_label. }
  destruct (draw_detection_run frame results colors alpha (length (heap w1)) m2 b2 k2
              w2 fr x1 color2 n2 Hfr2 Ha2 Hshx S2 C2 N2)
    as (dst2 & Hrun2 & Hsh2 & Hpx2).
  rewrite (bind_ok _ _ _ _ _ Hrun2), for_each_nil. unfold ret.
  eexists _, _, _. split; [done|]. simpl.
  split; [|split].
  - apply (list_lookup_middle _ [] _). by rewrite !length_app.
  - rewrite !lookup_app_l; [done|lia|..]; rewrite ?length_app; simpl; lia.
  - rewrite at_px_box_and_label by done.
    rewrite Hpx2. unfold x1. rewrite at_px_box_and_label by done.
    rewrite Hpx1, Hp, V1, V2. simpl.
    apply Qle_bool_false in L1, L2. rewrite L1, L2.
    rewrite (addWeighted_px_script alpha p) by done.
    by rewrite addWeighted_px_script by apply composite_f32_px_u8.
Qed.

End Render.

(** ** The frame-rate counter *)

Section Fps.
Context `{NumpyRandom}.

Lemma fps_update_inside (v : FpsVars) (w : World) :
  (clock w (clock_reads w) - start_time v < 1)%Q →
  fps_update v w
  = (Ok {| frame_count := frame_count v + 1; start_time := start_time v;
           fps_display := fps_display v |},
     set_clock_reads (S (clock_reads w)) w).
Proof.
  intros Hlt. unfold fps_update, bind, time_time.
  apply Qle_bool_false in Hlt. by rewrite Hlt.
Qed.

Lemma fps_update_boundary (v : FpsVars) (w : World) :
  (1 <= clock w (clock_reads w) - start_time v)%Q →
  fps_update v w
  = (Ok {| frame_count := 0; start_time := clock w (S (clock_reads w));
           fps_display := (inject_Z (frame_count v + 1)
                           / (clock w (clock_reads w) - start_time v))%Q |},
     set_clock_reads (S (S (clock_reads w))) w).
Proof.
  intros Hle. unfold fps_update, bind, time_time.
  apply Qle_bool_iff in Hle. by rewrite Hle.
Qed.

Lemma fps_ticks_inside (n : nat) :
  ∀ (v : FpsVars) (w : World),
    (∀ i : nat, (i < n)%nat →
       (clock w (clock_reads w + i)%nat - start_time v < 1)%Q) →
    fps_ticks n v w
    = (Ok {| frame_count := frame_count v + Z.of_nat n; start_time := start_time v;
             fps_display := fps_display v |},
       set_clock_reads (clock_reads w + n) w).
Proof.
  induction n as [|n IH]; intros v w Hin.
  - simpl. unfold ret. destruct v, w. unfold set_clock_reads. simpl.
    by rewrite Z.add_0_r, Nat.add_0_r.
  - simpl. unfold bind. rewrite fps_update_inside.
    2:{ specialize (Hin 0%nat). rewrite Nat.add_0_r in Hin. apply Hin. lia. }
    rewrite IH.
    + simpl. f_equal; [do 2 f_equal; lia|].
      unfold set_clock_reads. simpl. f_equal. lia.
    + intros i Hi. simpl. specialize (Hin (S i)).
      replace (S (clock_reads w + i)) with (clock_reads w + S i)%nat by lia.
      apply Hin. lia.
Qed.

(** C4, amended. The counter starts with a displayed rate of 0. A pass
    increments the count and reads the clock; only when at least one time
    unit has passed since the window start does it set the displayed rate to
    count / elapsed, reset the count to 0 and set the window start to a
    second reading of the clock. Otherwise, and over any number of passes
    inside the window, the displayed rate and the window start stay as they
    were. *)
Theorem fps_window_counter :
  (∀ w : World,
     (fps_init w).1
     = Ok {| frame_count := 0; start_time := clock w (clock_reads w);
             fps_display := 0 |}) ∧
  (∀ (v : FpsVars) (w : World),
     (1 <= clock w (clock_reads w) - start_time v)%Q →
     fps_update v w
     = (Ok {| frame_count := 0; start_time := clock w (S (clock_reads w));
              fps_display := (inject_Z (frame_count v + 1)
                              / (clock w (clock_reads w) - start_time v))%Q |},
        set_clock_reads (S (S (clock_reads w))) w)) ∧
  (∀ (v : FpsVars) (w : World),
     (clock w (clock_reads w) - start_time v < 1)%Q →
     fps_update v w
     = (Ok {| frame_count := frame_count v + 1; start_time := start_time v;
              fps_display := fps_display v |},
        set_clock_reads (S (clock_reads w)) w)) ∧
  (∀ (n : nat) (v : FpsVars) (w : World),
     (∀ i : nat, (i < n)%nat →
        (clock w (clock_reads w + i)%nat - start_time v < 1)%Q) →
     (fps_ticks n v w).1
     = Ok {| frame_count := frame_count v + Z.of_nat n;
             start_time := start_time v; fps_display := fps_display v |}).
Proof.
  split; [|split; [|split]].
  - intros w. reflexivity.
  - apply fps_update_boundary.
  - apply fps_update_inside.
  - intros n v w Hin. by rewrite fps_ticks_inside.
Qed.

End Fps.

(** ** One pass of the capture loop *)

Lemma control_app (t1 t2 : list Event) : control (t1 ++ t2) = control t1 ++ control t2.
Proof. unfold control. apply List.filter_app. Qed.

Lemma control_texts (texts : list string) : control (EvPutText <$> texts) = [].
Proof. induction texts as [|t l IH]; [done|]. simpl. exact IH. Qed.

Lemma count_occ_control (e : Event) (t : list Event) :
  (∀ s, e ≠ EvPutText s) →
  count_occ Event_eq_dec (control t) e = count_occ Event_eq_dec t e.
Proof.
  intros He. induction t as [|x t IH]; [done|].
  destruct x; simpl; repeat case_match; simplify_eq; try lia; try done.
  by destruct (He text).
Qed.

Section Loop.
Context `{NumpyRandom, Cv2, Yolo}.

Lemma fps_update_total (v : FpsVars) (w : World) :
  ∃ (v' : FpsVars) (n : nat), fps_update v w = (Ok v', set_clock_reads n w).
Proof.
  unfold fps_update, bind, time_time, ret. simpl.
  destruct (Qle_bool _ _); eauto.
Qed.

Lemma annotate_spec (args : Namespace) (frame : loc) (w : World) (f : Frame) :
  heap w !! frame = Some f →
  ∃ (o : outcome loc) (w' : World),
    annotate args frame w = (o, w') ∧
    (∃ texts, trace w'
       = (EvPutText <$> texts)
           ++ EvAnnotate (args_custom_visualization args) :: EvDetect :: trace w) ∧
    cap_frames w' = cap_frames w ∧ cap_opened w' = cap_opened w ∧
    keys w' = keys w ∧ key_polls w' = key_polls w ∧
    match o with
    | Ok a => is_Some (heap w' !! a)
    | Raise e => e ≠ OutOfFuel ∧ args_custom_visualization args = true
    end.
Proof.
  intros Hf. unfold annotate.
  rewrite (bind_ok _ _ _ _ _ (load_ok _ _ _ Hf)).
  rewrite (bind_ok (emit EvDetect) _ w _ _ eq_refl).
  rewrite (bind_ok (emit (EvAnnotate _)) _ _ _ _ eq_refl).
  set (w2 := set_trace _ (set_trace _ w)).
  destruct (args_custom_visualization args) eqn:Ec.
  - destruct (custom_visualization frame _ _ w2) as [o w'] eqn:E.
    exists o, w'. split; [done|].
    apply custom_visualization_renders in E
      as [([k Hk] & [texts Ht] & _ & _ & ? & ? & ? & ?) Ho].
    split; [by exists texts|]. repeat split; try done.
    destruct o as [a|e]; [|done].
    apply lookup_lt_is_Some. lia.
  - eexists _, _. split; [reflexivity|]. simpl.
    split; [by exists []|]. repeat split; try done.
    rewrite list_lookup_middle; [by eexists|done].
Qed.

Lemma loop_pass (args : Namespace) (output_writer : option unit) (v : FpsVars)
    (fuel : nat) (w : World) (f : Frame) (fs : list Frame) :
  cap_opened w = true →
  cap_frames w = f :: fs →
  (∃ (e : Exn) (w' : World),
     main_loop (S fuel) args output_writer v w = (Raise e, w') ∧
     e ≠ OutOfFuel ∧ args_custom_visualization args = true) ∨
  (∃ (w1 : World) (v' : FpsVars) (new : list Event),
     trace w1 = new ++ trace w ∧
     control new = pass_events args output_writer (keys w (key_polls w)) ∧
     cap_frames w1 = fs ∧ cap_opened w1 = true ∧
     keys w1 = keys w ∧ key_polls w1 = S (key_polls w) ∧
     main_loop (S fuel) args output_writer v w
     = if Z.land (keys w (key_polls w)) 255 =? 113 then (Ok tt, w1)
       else main_loop fuel args output_writer v' w1).
Proof.
  intros Ho Hfs. cbn [main_loop].
  rewrite (bind_ok cap_isOpened _ w _ _ eq_refl), Ho. cbn [negb].
  assert (Er : cap_read w
    = (Ok (Some (length (heap w))),
       set_trace (EvRead true :: trace w)
         (set_cap fs true (set_heap (heap w ++ [f]) w)))).
  { unfold cap_read. by rewrite Ho, Hfs. }
  rewrite (bind_ok _ _ _ _ _ Er). set (w1 := set_trace _ _).
  destruct (fps_update_total v w1) as (v' & n & Ev).
  rewrite (bind_ok _ _ _ _ _ Ev). set (w2 := set_clock_reads n w1).
  assert (Hf : heap w2 !! length (heap w) = Some f) by (simpl; by apply list_lookup_middle).
  destruct (annotate_spec args (length (heap w)) w2 f Hf)
    as (o & w3 & Ea & [texts Ht] & Hc3 & Ho3 & Hk3 & Hp3 & Hres).
  destruct o as [a|e].
  2:{ left. exists e, w3. by rewrite (bind_raise _ _ _ _ _ Ea). }
  right. rewrite (bind_ok _ _ _ _ _ Ea).
  destruct Hres as [img Himg].
  assert (∃ (w4 : World) (t4 : list string),
    (if args_show_fps args
     then cv2_putText a ("FPS: " +:+ format_f 1 (fps_display v')) (20, 40) 1 (0, 255, 0) 2
     else ret tt) w3 = (Ok tt, w4) ∧
    trace w4 = (EvPutText <$> t4) ++ trace w3 ∧
    cap_frames w4 = cap_frames w3 ∧ cap_opened w4 = cap_opened w3 ∧
    keys w4 = keys w3 ∧ key_polls w4 = key_polls w3) as (w4 & t4 & E4 & Ht4 & Hc4 & Ho4 & Hk4 & Hp4).
  { destruct (args_show_fps args).
    - rewrite (cv2_putText_run _ _ _ _ _ _ _ img Himg).
      eexists _, [_]. split; [done|]. by simpl.
    - exists w3, []. by unfold ret. }
  rewrite (bind_ok _ _ _ _ _ E4).
  rewrite (bind_ok (emit EvImshow) _ w4 _ _ eq_refl).
  set (w5 := set_trace _ w4).
  assert (∃ w6 : World,
    match output_writer with Some _ => emit EvWrite | None => ret tt end w5 = (Ok tt, w6) ∧
    trace w6 = match output_writer with Some _ => [EvWrite] | None => [] end ++ trace w5 ∧
    cap_frames w6 = cap_frames w5 ∧ cap_opened w6 = cap_opened w5 ∧
    keys w6 = keys w5 ∧ key_polls w6 = key_polls w5) as (w6 & E6 & Ht6 & Hc6 & Ho6 & Hk6 & Hp6).
  { destruct output_writer; eexists; (split; [reflexivity|done]). }
  rewrite (bind_ok _ _ _ _ _ E6).
  rewrite (bind_ok (cv2_waitKey 1) _ w6 _ _ eq_refl).
  assert (Hkeys : keys w6 = keys w) by (rewrite Hk6; simpl; rewrite Hk4, Hk3; done).
  assert (Hpolls : key_polls w6 = key_polls w) by (rewrite Hp6; simpl; rewrite Hp4, Hp3; done).
  rewrite Hkeys, Hpolls.
  set (w7 := set_trace _ _).
  exists w7, v', (EvWaitKey (keys w (key_polls w))
    :: match output_writer with Some _ => [EvWrite] | None => [] end
    ++ EvImshow :: (EvPutText <$> t4) ++ (EvPutText <$> texts)
    ++ [EvAnnotate (args_custom_visualization args); EvDetect; EvRead true]).
  split_and!.
  - simpl. rewrite Ht6. simpl. rewrite Ht4, Ht. simpl.
    f_equal. rewrite <- !app_assoc. simpl. by rewrite <- !app_assoc.
  - unfold pass_events. simpl. f_equal.
    rewrite control_app. f_equal; [by destruct output_writer|].
    simpl. f_equal. by rewrite !control_app, !control_texts.
  - simpl. rewrite Hc6. simpl. by rewrite Hc4, Hc3.
  - simpl. rewrite Ho6. simpl. by rewrite Ho4, Ho3.
  - done.
  - done.
  - by destruct (_ =? _).
Qed.

End Loop.

(** ** The capture loop as a whole *)

Lemma loop_events_no_release (args : Namespace) (ow : option unit)
    (frames : list Frame) (ks : nat → Z) :
  ∀ polls : nat,
    (EvCapRelease ∉ loop_events args ow frames ks polls) ∧
    (EvWriterRelease ∉ loop_events args ow frames ks polls).
Proof.
  induction frames as [|f fs IH]; intros polls; simpl.
  - split; intros Hin; apply list_elem_of_In in Hin; simpl in Hin;
      intuition congruence.
  - destruct (IH (S polls)) as [IH1 IH2].
    assert (Hp : (EvCapRelease ∉ pass_events args ow (ks polls))
                 ∧ (EvWriterRelease ∉ pass_events args ow (ks polls))).
    { unfold pass_events.
      destruct ow; simpl; split; intros Hin; apply list_elem_of_In in Hin;
        simpl in Hin; intuition congruence. }
    destruct Hp as [Hp1 Hp2].
    split; intros Hin; apply elem_of_app in Hin as [Hin|Hin];
      try done; destruct (_ =? _); try done; by apply not_elem_of_nil in Hin.
Qed.

Section Loop.
Context `{NumpyRandom, Cv2, Yolo}.

Lemma main_loop_spec (args : Namespace) (ow : option unit) (fuel : nat) :
  ∀ (v : FpsVars) (w : World),
    cap_opened w = true →
    (length (cap_frames w) < fuel)%nat →
    ∃ (o : outcome unit) (w' : World),
      main_loop fuel args ow v w = (o, w') ∧
      match o with
      | Ok _ =>
        ∃ new, trace w' = new ++ trace w ∧
               control new = loop_events args ow (cap_frames w) (keys w) (key_polls w) ∧
               cap_opened w' = true
      | Raise e => e ≠ OutOfFuel ∧ args_custom_visualization args = true
      end.
Proof.
  induction fuel as [|fuel IH]; intros v w Ho Hlen; [lia|].
  destruct (cap_frames w) as [|f fs] eqn:Hfs.
  - cbn [main_loop].
    rewrite (bind_ok cap_isOpened _ w _ _ eq_refl), Ho. cbn [negb].
    assert (Er : cap_read w = (Ok None, set_trace (EvRead false :: trace w) w)).
    { unfold cap_read. by rewrite Ho, Hfs. }
    rewrite (bind_ok _ _ _ _ _ Er). unfold ret.
    eexists _, _. split; [done|]. exists [EvRead false]. by simpl.
  - destruct (loop_pass args ow v fuel w f fs Ho Hfs)
      as [(e & w' & E & He & Hc)|(w1 & v' & new & Ht & Hn & Hc1 & Ho1 & Hk1 & Hp1 & E)].
    + exists (Raise e), w'. by split.
    + rewrite E. simpl loop_events.
      destruct (Z.land (keys w (key_polls w)) 255 =? 113).
      * eexists _, _. split; [done|]. exists new. by simpl.
      * destruct (IH v' w1 Ho1) as (o & w' & E' & Hres).
        { rewrite Hc1. simpl in Hlen. lia. }
        exists o, w'. split; [done|]. destruct o as [[]|e]; [|done].
        destruct Hres as (new' & Ht' & Hn' & Ho').
        exists (new' ++ new). split_and!; [|  |done].
        -- by rewrite Ht', Ht, app_assoc.
        -- by rewrite control_app, Hn', Hn, Hc1, Hk1, Hp1.
Qed.

Lemma main_spec (fuel : nat) (args : Namespace) (w : World) :
  cap_opened w = true →
  (length (cap_frames w) < fuel)%nat →
  ∃ (o : outcome unit) (w' : World),
    main fuel args w = (o, w') ∧
    match o with
    | Ok _ =>
      ∃ new, trace w' = new ++ trace w ∧
        control new
        = EvDestroyAllWindows
            :: (if args_save args then [EvWriterRelease] else [])
            ++ EvCapRelease
            :: loop_events args (if args_save args then Some tt else None)
                 (cap_frames w) (keys w) (key_polls w)
            ++ (if args_save args then [EvWriterOpen] else []) ∧
        cap_opened w' = false
    | Raise e => e ≠ OutOfFuel ∧ args_custom_visualization args = true
    end.
Proof.
  intros Ho Hlen. unfold main.
  rewrite (bind_ok cap_isOpened _ w _ _ eq_refl), Ho. cbn [negb].
  set (ow := if args_save args then Some tt else None).
  assert (∃ w1 : World,
    (if args_save args then bind (emit EvWriterOpen) (λ _, ret (Some tt)) else ret None) w
      = (Ok ow, w1) ∧
    trace w1 = (if args_save args then [EvWriterOpen] else []) ++ trace w ∧
    cap_frames w1 = cap_frames w ∧ cap_opened w1 = cap_opened w ∧
    keys w1 = keys w ∧ key_polls w1 = key_polls w) as (w1 & E1 & Ht1 & Hc1 & Ho1 & Hk1 & Hp1).
  { unfold ow. destruct (args_save args); eexists; (split; [reflexivity|done]). }
  rewrite (bind_ok _ _ _ _ _ E1).
  rewrite (bind_ok fps_init _ w1 _ _ eq_refl).
  set (w2 := set_clock_reads _ w1). set (v := Build_FpsVars _ _ _).
  destruct (main_loop_spec args ow fuel v w2) as (o & w3 & E3 & Hres).
  { simpl. congruence. }
  { simpl. rewrite Hc1. done. }
  destruct o as [[]|e].
  2:{ exists (Raise e), w3. by rewrite (bind_raise _ _ _ _ _ E3). }
  rewrite (bind_ok _ _ _ _ _ E3).
  destruct Hres as (new & Ht3 & Hn3 & Ho3).
  rewrite (bind_ok cap_release _ w3 _ _ eq_refl).
  set (w4 := set_trace _ _).
  assert (∃ w5 : World,
    match ow with Some _ => emit EvWriterRelease | None => ret tt end w4 = (Ok tt, w5) ∧
    trace w5 = (if args_save args then [EvWriterRelease] else []) ++ trace w4 ∧
    cap_opened w5 = cap_opened w4) as (w5 & E5 & Ht5 & Ho5).
  { unfold ow. destruct (args_save args); eexists; (split; [reflexivity|done]). }
  rewrite (bind_ok _ _ _ _ _ E5).
  eexists _, _. split; [reflexivity|].
  exists (EvDestroyAllWindows :: (if args_save args then [EvWriterRelease] else [])
          ++ EvCapRelease :: new ++ (if args_save args then [EvWriterOpen] else [])).
  split_and!.
  - simpl. rewrite Ht5. simpl. rewrite Ht3. simpl. rewrite Ht1.
    f_equal. rewrite <- !app_assoc. simpl. by rewrite <- !app_assoc.
  - simpl. f_equal. rewrite control_app.
    f_equal; [by destruct (args_save args)|]. simpl. f_equal.
    rewrite control_app, Hn3. simpl. rewrite Hc1, Hk1, Hp1.
    f_equal. by destruct (args_save args).
  - simpl. by rewrite Ho5.
Qed.

End Loop.

(** ** Termination and release *)

Section Loop.
Context `{NumpyRandom, Cv2, Yolo}.

(** C5. A source that delivers three frames and then fails to read, with
    no quit key during those three passes: the run does not exhaust the loop
    budget, it ends without an exception whenever the renderer raises none
    (always so with the built-in renderer), and it then has called the
    detector and the annotator three times each, has left the loop on the
    failed fourth read, and has released the source and then, if one was
    created, the writer, once each. On every run that ends without an
    exception, whether by a failed read or by the quit key, the source and
    then the writer are released after the loop, once each. *)
Theorem three_frames_then_release_in_order :
  (∀ (fuel : nat) (args : Namespace) (w : World) (f1 f2 f3 : Frame),
     cap_opened w = true →
     cap_frames w = [f1; f2; f3] →
     (∀ i : nat, (i < 3)%nat → Z.land (keys w (key_polls w + i)%nat) 255 ≠ 113) →
     (3 < fuel)%nat →
     ∃ (o : outcome unit) (w' : World),
       main fuel args w = (o, w') ∧
       o ≠ Raise OutOfFuel ∧
       (args_custom_visualization args = false → o = Ok tt) ∧
       (o = Ok tt →
        ∃ new : list Event,
          trace w' = new ++ trace w ∧
          count_occ Event_eq_dec new EvDetect = 3%nat ∧
          (count_occ Event_eq_dec new (EvAnnotate true)
            + count_occ Event_eq_dec new (EvAnnotate false) = 3)%nat ∧
          count_occ Event_eq_dec new (EvRead true) = 3%nat ∧
          count_occ Event_eq_dec new (EvRead false) = 1%nat ∧
          count_occ Event_eq_dec new EvCapRelease = 1%nat ∧
          count_occ Event_eq_dec new EvWriterRelease
            = (if args_save args then 1%nat else 0%nat) ∧
          ∃ body : list Event,
            control new
            = EvDestroyAllWindows
                :: (if args_save args then [EvWriterRelease] else [])
                ++ EvCapRelease :: EvRead false :: body)) ∧
  (∀ (fuel : nat) (args : Namespace) (w : World),
     cap_opened w = true →
     (length (cap_frames w) < fuel)%nat →
     ∃ (o : outcome unit) (w' : World),
       main fuel args w = (o, w') ∧
       o ≠ Raise OutOfFuel ∧
       (args_custom_visualization args = false → o = Ok tt) ∧
       (o = Ok tt →
        ∃ new body : list Event,
          trace w' = new ++ trace w ∧
          control new
          = EvDestroyAllWindows
              :: (if args_save args then [EvWriterRelease] else [])
              ++ EvCapRelease :: body ∧
          (EvCapRelease ∉ body) ∧ (EvWriterRelease ∉ body) ∧
          cap_opened w' = false)).
Proof.
  split.
  - intros fuel args w f1 f2 f3 Ho Hfs Hkeys Hfuel.
    destruct (main_spec fuel args w Ho) as (o & w' & E & Hres);
      [rewrite Hfs; simpl; lia|].
    exists o, w'. split; [done|].
    destruct o as [[]|e].
    2:{ destruct Hres as [He Hc]. split_and!; [congruence|congruence|done]. }
    split_and!; [done|done|]. intros _.
    destruct Hres as (new & Ht & Hn & _). exists new. split; [done|].
    rewrite Hfs in Hn. simpl in Hn.
    pose proof (Hkeys 0%nat ltac:(lia)) as K0.
    pose proof (Hkeys 1%nat ltac:(lia)) as K1.
    pose proof (Hkeys 2%nat ltac:(lia)) as K2.
    replace (key_polls w + 0)%nat with (key_polls w) in K0 by lia.
    replace (key_polls w + 1)%nat with (S (key_polls w)) in K1 by lia.
    replace (key_polls w + 2)%nat with (S (S (key_polls w))) in K2 by lia.
    apply Z.eqb_neq in K0, K1, K2. rewrite K0, K1, K2 in Hn.
    rewrite <- !(count_occ_control _ new) by done. rewrite Hn.
    unfold pass_events.
    destruct (args_save args), (args_custom_visualization args); simpl;
      split_and!; try reflexivity; eexists; reflexivity.
  - intros fuel args w Ho Hlen.
    destruct (main_spec fuel args w Ho Hlen) as (o & w' & E & Hres).
    exists o, w'. split; [done|].
    destruct o as [[]|e].
    2:{ destruct Hres as [He Hc]. split_and!; [congruence|congruence|done]. }
    split_and!; [done|done|]. intros _.
    destruct Hres as (new & Ht & Hn & Ho').
    set (ow := if args_save args then Some tt else None) in *.
    destruct (loop_events_no_release args ow (cap_frames w) (keys w) (key_polls w))
      as [Hr1 Hr2].
    exists new, (loop_events args ow (cap_frames w) (keys w) (key_polls w)
                 ++ (if args_save args then [EvWriterOpen] else [])).
    split_and!; [done|done| | |done].
    + intros Hin. apply elem_of_app in Hin as [Hin|Hin]; [done|].
      destruct (args_save args); apply list_elem_of_In in Hin; simpl in Hin;
        intuition congruence.
    + intros Hin. apply elem_of_app in Hin as [Hin|Hin]; [done|].
      destruct (args_save args); apply list_elem_of_In in Hin; simpl in Hin;
        intuition congruence.
Qed.

End Loop.

(** ** The claims on sample inputs *)

(** C1 as stated fails. A mask that covers a 4 by 4 frame and the colour
    (95, 179, 61). With alpha 22000000 on a grey frame the second channel of
    the sum, 3938000200, does not fit a 32-bit integer and is stored as 0,
    where the clamp of the formula gives 255. With alpha 0.3 on a black
    frame the first channel is stored as 29, where the exact sum is just
    below 28.5 and rounds to 28. *)
Lemma composite_single_precision_counterexample :
  at_px (threshold (@cv2_resize block_cv2 (flat_mask 4 4 1) (4%nat, 4%nat))) 1 2
    = Some 1 ∧
  (heap (@blend_mask counting_random block_cv2 0%nat [(42, 43, 44); (95, 179, 61)]
           22000000 1%nat (flat_mask 4 4 1) 1 (grey_world 4)).2 !! 2%nat
     ≫= λ dst, at_px dst 1 2) = Some (255, 0, 255) ∧
  composite_px 22000000 (200, 200, 200) (95, 179, 61) = (255, 255, 255) ∧
  (float_0_3 < 3 # 10)%Q ∧
  (heap (@blend_mask counting_random block_cv2 0%nat [(42, 43, 44); (95, 179, 61)]
           float_0_3 1%nat (flat_mask 4 4 1) 1 (copied_world 4)).2 !! 2%nat
     ≫= λ dst, at_px dst 1 2) = Some (29, 54, 18) ∧
  composite_px float_0_3 (0, 0, 0) (95, 179, 61) = (28, 54, 18).
Proof. vm_compute. split_and!; reflexivity. Qed.

(** C1, amended, on a 4 by 4 black frame, a mask that covers it, the colour
    (95, 179, 61) and alpha 0.3: the covered pixels become (29, 54, 18),
    within one level of the exact formula. *)
Lemma mask_composite_pixel_witness :
  ∃ dst : Frame,
    (@blend_mask counting_random block_cv2 0%nat [(95, 179, 61)] float_0_3 1%nat
       (flat_mask 4 4 1) 0 (copied_world 4)).1 = Ok (2%nat, (95, 179, 61)) ∧
    heap (@blend_mask counting_random block_cv2 0%nat [(95, 179, 61)] float_0_3
            1%nat (flat_mask 4 4 1) 0 (copied_world 4)).2 !! 2%nat = Some dst ∧
    at_px dst 1 2 = Some (29, 54, 18) ∧
    levels_apart (composite_f32_px float_0_3 (0, 0, 0) (95, 179, 61))
      (composite_px float_0_3 (0, 0, 0) (95, 179, 61)) ≤ 1.
Proof.
  destruct (@mask_composite_pixel counting_random block_cv2 0%nat [(95, 179, 61)]
              float_0_3 1%nat (flat_mask 4 4 1) 0 (copied_world 4)
              (solid 4 4 (0, 0, 0)) (solid 4 4 (0, 0, 0)) (95, 179, 61)
              eq_refl eq_refl eq_refl eq_refl eq_refl eq_refl)
    as (dst & Hrun & Hpx).
  exists dst. rewrite Hrun. split; [reflexivity|]. split; [reflexivity|].
  destruct (Hpx 1%nat 2%nat (0, 0, 0) 1%Q eq_refl eq_refl) as [Hin _].
  destruct (Hin eq_refl) as [Hdst Hnear].
  split; [rewrite Hdst; reflexivity|].
  apply Hnear; [split; discriminate|reflexivity].
Defined.

(** C2 as stated fails. Two detections of class 0, colour (42, 43, 44),
    whose masks cover the whole 6 by 6 black frame, alpha 3/10: at pixel
    (5, 5) the renderer leaves (26, 26, 26), the sum clamped once gives
    (25, 26, 26). *)
Lemma two_masks_sum_counterexample :
  (@class_colors counting_random 42 2 (black_world 6)).1
    = Ok [(42, 43, 44); (45, 46, 47)] ∧
  at_px (threshold (@cv2_resize block_cv2 (flat_mask 6 6 1) (6%nat, 6%nat))) 5 5
    = Some 1 ∧
  at_px (solid 6 6 (0, 0, 0)) 5 5 = Some (0, 0, 0) ∧
  (@custom_visualization counting_random block_cv2 0%nat
     (corner_results 6 [1%Q; 1%Q]) (3 # 10) (black_world 6)).1 = Ok 3%nat ∧
  (heap (@custom_visualization counting_random block_cv2 0%nat
           (corner_results 6 [1%Q; 1%Q]) (3 # 10) (black_world 6)).2 !! 3%nat
     ≫= λ out, at_px out 5 5) = Some (26, 26, 26) ∧
  composite2_px (3 # 10) (0, 0, 0) (42, 43, 44) (42, 43, 44) = (25, 26, 26) ∧
  (heap (@custom_visualization counting_random block_cv2 0%nat
           (corner_results 6 [1%Q; 1%Q]) (3 # 10) (black_world 6)).2 !! 3%nat
     ≫= λ out, at_px out 5 5)
    ≠ Some (composite2_px (3 # 10) (0, 0, 0) (42, 43, 44) (42, 43, 44)).
Proof. vm_compute. split_and!; try reflexivity. discriminate. Qed.

(** C2, amended, on the same input. *)
Lemma two_masks_composite_in_order_witness :
  ∃ (a : loc) (w' : World) (out : Frame),
    @custom_visualization counting_random block_cv2 0%nat
      (corner_results 6 [1%Q; 1%Q]) (3 # 10) (black_world 6) = (Ok a, w') ∧
    heap w' !! a = Some out ∧
    heap w' !! 0%nat = Some (solid 6 6 (0, 0, 0)) ∧
    at_px out 5 5 = Some (26, 26, 26).
Proof.
  exact (@two_masks_composite_in_order counting_random block_cv2 0%nat
           (corner_results 6 [1%Q; 1%Q]) (3 # 10) (black_world 6)
           (solid 6 6 (0, 0, 0)) (flat_mask 6 6 1) (flat_mask 6 6 1)
           (box_at 0 0 1 1 (9 # 10)) (box_at 0 0 1 1 (9 # 10)) 0 0
           (42, 43, 44) (42, 43, 44) "a" "a" 5%nat 5%nat (0, 0, 0) 1%Q 1%Q
           eq_refl eq_refl eq_refl eq_refl eq_refl eq_refl eq_refl eq_refl
           eq_refl eq_refl eq_refl eq_refl eq_refl eq_refl eq_refl eq_refl eq_refl).
Defined.

(** Two blends of the colour level 95 over a black channel at alpha 0.3:
    29, then 58, where the exact sum 57 would be stored by a single clamp. *)
Lemma two_blends_of_level_95 :
  composite_f32_channel float_0_3 0 95 = 29 ∧
  composite_f32_channel float_0_3 29 95 = 58 ∧
  composite2_channel float_0_3 0 95 95 = 57.
Proof. vm_compute. done. Qed.

(** C4 as stated fails. The clock reads 0 at the start, 1 at the first
    pass, 3/2 at the reading taken for the new window start: the window
    start becomes 3/2, not the 1 that was compared with the old start. *)
Lemma window_start_second_reading_counterexample :
  ∃ v : FpsVars,
    (bind (H := counting_random) fps_init fps_update
       (world_of (H := counting_random) [] 7 stepping_clock [] (λ _, -1))).1 = Ok v ∧
    stepping_clock 1 = 1%Q ∧
    frame_count v = 0 ∧
    start_time v = (3 # 2)%Q ∧
    ¬ (start_time v == stepping_clock 1)%Q.
Proof.
  eexists. vm_compute. split_and!; try reflexivity. discriminate.
Qed.

(** C4, amended, on sample clocks. *)
Lemma fps_window_counter_witness :
  (@fps_update counting_random {| frame_count := 0; start_time := 0; fps_display := 0 |}
     (set_clock_reads 1 (world_of (H := counting_random) [] 7 stepping_clock [] (λ _, -1)))).1
  = Ok {| frame_count := 0; start_time := stepping_clock 2;
          fps_display := (inject_Z (0 + 1) / (stepping_clock 1 - 0))%Q |} ∧
  (@fps_update counting_random {| frame_count := 0; start_time := 0; fps_display := 0 |}
     (set_clock_reads 1 (world_of (H := counting_random) [] 7 quarter_clock [] (λ _, -1)))).1
  = Ok {| frame_count := 0 + 1; start_time := 0; fps_display := 0 |} ∧
  (@fps_ticks counting_random 3 {| frame_count := 0; start_time := 0; fps_display := 0 |}
     (world_of (H := counting_random) [] 7 quarter_clock [] (λ _, -1))).1
  = Ok {| frame_count := 0 + Z.of_nat 3; start_time := 0; fps_display := 0 |}.
Proof.
  pose proof (@fps_window_counter counting_random) as (_ & Hb & Hi & Ht).
  split; [|split].
  - rewrite Hb; [reflexivity|]. vm_compute. discriminate.
  - rewrite Hi; [reflexivity|]. reflexivity.
  - apply Ht. intros i Hi3.
    destruct i as [|[|[|i]]]; [reflexivity|reflexivity|reflexivity|lia].
Defined.

Lemma at_px_flat_mask (h w : nat) (v : Q) (r c : nat) (x : Q) :
  at_px (flat_mask h w v) r c = Some x → x = v.
Proof.
  unfold at_px, flat_mask. intros Hx.
  destruct (replicate h (replicate w v) !! r) as [row|] eqn:Er; [|done].
  apply lookup_replicate in Er as [-> _]. simpl in Hx.
  by apply lookup_replicate in Hx as [-> _].
Qed.

(** C5 on a source of three black frames, a keyboard that is never touched,
    the custom renderer switched on and recording enabled. *)
Lemma three_frames_then_release_in_order_witness :
  ∃ (o : outcome unit) (w' : World),
    @main counting_random block_cv2 (fixed_yolo boxes_only_results) 4 args_conf_off
      (three_frame_world (λ _, -1)) = (o, w') ∧
    o ≠ Raise OutOfFuel ∧
    (args_custom_visualization args_conf_off = false → o = Ok tt) ∧
    (o = Ok tt →
     ∃ new : list Event,
       trace w' = new ++ trace (three_frame_world (λ _, -1)) ∧
       count_occ Event_eq_dec new EvDetect = 3%nat ∧
       (count_occ Event_eq_dec new (EvAnnotate true)
        + count_occ Event_eq_dec new (EvAnnotate false) = 3)%nat ∧
       count_occ Event_eq_dec new (EvRead true) = 3%nat ∧
       count_occ Event_eq_dec new (EvRead false) = 1%nat ∧
       count_occ Event_eq_dec new EvCapRelease = 1%nat ∧
       count_occ Event_eq_dec new EvWriterRelease
         = (if args_save args_conf_off then 1%nat else 0%nat) ∧
       ∃ body : list Event,
         control new
         = EvDestroyAllWindows
             :: (if args_save args_conf_off then [EvWriterRelease] else [])
             ++ EvCapRelease :: EvRead false :: body).
Proof.
  apply (proj1 (@three_frames_then_release_in_order counting_random block_cv2
                  (fixed_yolo boxes_only_results))
           4%nat args_conf_off (three_frame_world (λ _, -1))
           (solid 2 2 (0, 0, 0)) (solid 2 2 (0, 0, 0)) (solid 2 2 (0, 0, 0))).
  - reflexivity.
  - reflexivity.
  - intros i Hi. simpl. discriminate.
  - lia.
Defined.

(** C7 on a result whose mask list is empty. *)
Lemma empty_detections_unchanged_witness :
  ∃ w' : World,
    @custom_visualization counting_random block_cv2 0%nat (corner_results 4 [])
      (3 # 10) (black_world 4) = (Ok (length (heap (black_world 4))), w') ∧
    heap w' !! length (heap (black_world 4)) = Some (solid 4 4 (0, 0, 0)) ∧
    heap w' !! 0%nat = Some (solid 4 4 (0, 0, 0)) ∧
    heap w' = heap (black_world 4) ++ [solid 4 4 (0, 0, 0)] ∧
    trace w' = trace (black_world 4).
Proof.
  apply (@empty_detections_unchanged counting_random block_cv2 0%nat
           (corner_results 4 []) (3 # 10) (black_world 4) (solid 4 4 (0, 0, 0)));
    reflexivity.
Defined.

(** C8 as stated fails. With two classes the class id -1 is outside
    [0, 2), yet the lookup raises nothing and yields the colour of class 1. *)
Lemma negative_class_id_wraps_counterexample :
  (@class_colors counting_random 42 2 (copied_world 4)).1
    = Ok [(42, 43, 44); (45, 46, 47)] ∧
  np_getitem [(42, 43, 44); (45, 46, 47)] (-1) = Ok (45, 46, 47) ∧
  np_getitem [(42, 43, 44); (45, 46, 47)] 1 = Ok (45, 46, 47) ∧
  (@blend_mask counting_random block_cv2 0%nat [(42, 43, 44); (45, 46, 47)]
     (3 # 10) 1%nat (flat_mask 4 4 1) (-1) (copied_world 4)).1
    = Ok (2%nat, (45, 46, 47)).
Proof. vm_compute. split_and!; reflexivity. Qed.

(** C8, amended, on a table of two colours. *)
Lemma color_lookup_bounds_witness :
  (np_getitem [(42, 43, 44); (45, 46, 47)] 2 = Raise IndexError ∧
   @blend_mask counting_random block_cv2 0%nat [(42, 43, 44); (45, 46, 47)]
     (3 # 10) 1%nat (flat_mask 4 4 1) 2 (copied_world 4)
   = (Raise IndexError, copied_world 4)) ∧
  (np_getitem [(42, 43, 44); (45, 46, 47)] (-3) = Raise IndexError ∧
   @blend_mask counting_random block_cv2 0%nat [(42, 43, 44); (45, 46, 47)]
     (3 # 10) 1%nat (flat_mask 4 4 1) (-3) (copied_world 4)
   = (Raise IndexError, copied_world 4)) ∧
  (∃ color, [(42, 43, 44); (45, 46, 47)] !! Z.to_nat (-1 + 2) = Some color ∧
            np_getitem [(42, 43, 44); (45, 46, 47)] (-1) = Ok color) ∧
  (∃ color, [(42, 43, 44); (45, 46, 47)] !! Z.to_nat 0 = Some color ∧
            np_getitem [(42, 43, 44); (45, 46, 47)] 0 = Ok color).
Proof.
  split; [|split; [|split]].
  - apply (proj1 (@color_lookup_bounds counting_random block_cv2 0%nat
                    [(42, 43, 44); (45, 46, 47)] (3 # 10) 1%nat (flat_mask 4 4 1)
                    2 (copied_world 4))).
    simpl. lia.
  - apply (proj1 (@color_lookup_bounds counting_random block_cv2 0%nat
                    [(42, 43, 44); (45, 46, 47)] (3 # 10) 1%nat (flat_mask 4 4 1)
                    (-3) (copied_world 4))).
    simpl. lia.
  - apply (proj1 (proj2 (@color_lookup_bounds counting_random block_cv2 0%nat
                    [(42, 43, 44); (45, 46, 47)] (3 # 10) 1%nat (flat_mask 4 4 1)
                    (-1) (copied_world 4)))).
    simpl. lia.
  - apply (proj2 (proj2 (@color_lookup_bounds counting_random block_cv2 0%nat
                    [(42, 43, 44); (45, 46, 47)] (3 # 10) 1%nat (flat_mask 4 4 1)
                    0 (copied_world 4)))).
    simpl. lia.
Defined.

(** C9 as stated fails. One detection whose mask is 0 everywhere, on a 6 by
    6 black frame: the pixel (0, 0) of the returned image is (42, 43, 44),
    the colour of the box drawn for that detection. *)
Lemma empty_mask_still_drawn_counterexample :
  forallb (forallb (λ v, Qle_bool v (1 # 2)))
    (@cv2_resize block_cv2 (flat_mask 6 6 0) (6%nat, 6%nat)) = true ∧
  at_px (solid 6 6 (0, 0, 0)) 0 0 = Some (0, 0, 0) ∧
  (@custom_visualization counting_random block_cv2 0%nat
     (corner_results 6 [0%Q]) (3 # 10) (black_world 6)).1 = Ok 2%nat ∧
  (heap (@custom_visualization counting_random block_cv2 0%nat
           (corner_results 6 [0%Q]) (3 # 10) (black_world 6)).2 !! 2%nat
     ≫= λ out, at_px out 0 0) = Some (42, 43, 44) ∧
  (heap (@custom_visualization counting_random block_cv2 0%nat
           (corner_results 6 [0%Q]) (3 # 10) (black_world 6)).2 !! 2%nat)
    ≠ Some (solid 6 6 (0, 0, 0)).
Proof. vm_compute. split_and!; try reflexivity. discriminate. Qed.

(** C9, amended, on the same detection. *)
Lemma empty_mask_blend_noop_witness :
  @blend_mask counting_random block_cv2 0%nat [(42, 43, 44)] (3 # 10) 1%nat
    (flat_mask 6 6 0) 0 (copied_world 6)
  = (Ok (length (heap (copied_world 6)), (42, 43, 44)),
     set_heap (heap (copied_world 6) ++ [solid 6 6 (0, 0, 0)]) (copied_world 6)) ∧
  @draw_detection counting_random block_cv2 0%nat (corner_results 6 [0%Q])
    [(42, 43, 44)] (3 # 10) 1%nat (flat_mask 6 6 0, box_at 0 0 1 1 (9 # 10), 0)
    (copied_world 6)
  = (Ok (length (heap (copied_world 6))),
     set_trace (EvPutText (label_text "a" (box_conf (box_at 0 0 1 1 (9 # 10))))
                  :: trace (copied_world 6))
       (set_heap (heap (copied_world 6)
                  ++ [@box_and_label block_cv2 (box_at 0 0 1 1 (9 # 10)) (42, 43, 44)
                        (label_text "a" (box_conf (box_at 0 0 1 1 (9 # 10))))
                        (solid 6 6 (0, 0, 0))]) (copied_world 6))).
Proof.
  apply (@empty_mask_blend_noop counting_random block_cv2 0%nat
           (corner_results 6 [0%Q]) [(42, 43, 44)] (3 # 10) 1%nat (flat_mask 6 6 0)
           (box_at 0 0 1 1 (9 # 10)) 0 (copied_world 6)
           (solid 6 6 (0, 0, 0)) (solid 6 6 (0, 0, 0)) (42, 43, 44) "a");
    try reflexivity.
  intros r c v Hv.
  change (at_px (flat_mask 6 6 0) r c = Some v) in Hv.
  rewrite (at_px_flat_mask _ _ _ _ _ _ Hv). discriminate.
Defined.

(** C10 on a result without masks that carries a box. *)
Lemma no_masks_copy_only_witness :
  @custom_visualization counting_random block_cv2 0%nat boxes_only_results
    (3 # 10) (black_world 4)
  = (Ok (length (heap (black_world 4))),
     set_heap (heap (black_world 4) ++ [solid 4 4 (0, 0, 0)]) (black_world 4)) ∧
  ((∀ (l : loc) (f : Frame),
      heap (black_world 6) !! l = Some f →
      heap (@custom_visualization counting_random block_cv2 0%nat
              (corner_results 6 [1%Q; 1%Q]) (3 # 10) (black_world 6)).2 !! l
      = Some f) ∧
   (∀ a : loc,
      (@custom_visualization counting_random block_cv2 0%nat
         (corner_results 6 [1%Q; 1%Q]) (3 # 10) (black_world 6)).1 = Ok a →
      (length (heap (black_world 6)) ≤ a
       < length (heap (@custom_visualization counting_random block_cv2 0%nat
                         (corner_results 6 [1%Q; 1%Q]) (3 # 10)
                         (black_world 6)).2))%nat)).
Proof.
  pose proof (@no_masks_copy_only counting_random block_cv2) as [Hnone Hall].
  split.
  - apply Hnone; reflexivity.
  - apply (Hall 0%nat (corner_results 6 [1%Q; 1%Q]) (3 # 10)%Q (black_world 6)).
    apply surjective_pairing.
Defined.

(** ** The loop over detections *)

Section Fold.
Context `{NumpyRandom, Cv2}.

(** A pass of the loop body that succeeds met all the conditions under
    which it can succeed, and did what [draw_detection_run] describes. *)
Lemma draw_detection_ok_inv (frame : loc) (results : Results)
    (colors : list Pixel) (alpha : Q) (annotated : loc) (mask : Mask)
    (box : BoxRow) (class_id : Z) (w w' : World) (a' : loc) :
  draw_detection frame results colors alpha annotated (mask, box, class_id) w
    = (Ok a', w') →
  ∃ (fr src : Frame) (color : Pixel) (name : string),
    heap w !! frame = Some fr ∧
    heap w !! annotated = Some src ∧
    length <$> src = length <$> fr ∧
    length <$> cv2_resize mask (width fr, height fr) = length <$> fr ∧
    np_getitem colors class_id = Ok color ∧
    names_get (names results) class_id = Some name.
Proof.
  intros E. unfold draw_detection, bind in E.
  destruct (blend_mask _ _ _ _ _ _ w) as [r w1] eqn:Eb.
  destruct r as [[a color]|e]; [|done].
  unfold blend_mask, bind, lift, load, alloc, ret in Eb.
  destruct (np_getitem colors class_id) as [color'|] eqn:Hcol; [|done].
  destruct (heap w !! frame) as [fr|] eqn:Hfr; [|done].
  unfold setitem_mask in Eb.
  destruct (same_shape (zeros_like fr) _) eqn:Hs1; [|done].
  destruct (heap w !! annotated) as [src|] eqn:Hsrc; [|done].
  unfold addWeighted in Eb.
  destruct (same_shape src _) eqn:Hs2; [|done].
  simplify_eq.
  apply same_shape_eq in Hs1, Hs2.
  unfold zeros_like, threshold in Hs1. rewrite !shape_fmap in Hs1.
  rewrite shape_zip_with in Hs2
    by (unfold zeros_like, threshold; by rewrite !shape_fmap).
  unfold zeros_like in Hs2. rewrite shape_fmap in Hs2.
  destruct (names_get (names results) class_id) as [name|] eqn:Hn.
  - exists fr, src, color, name. by split_and!.
  - exfalso. unfold draw_box_label, bind in E.
    rewrite (cv2_rectangle_run _ _ _ _ _ _
               (zip_with (zip_with (addWeighted_px 1 alpha 0)) src
                  (zip_with (zip_with (λ (p : Pixel) (b : Z), if b =? 1 then color else p))
                     ((λ row : list Pixel, (λ _ : Pixel, (0, 0, 0)) <$> row) <$> fr)
                     (threshold (cv2_resize mask (width fr, height fr))))))
      in E; [|simpl; by apply list_lookup_middle].
    unfold lift in E. by rewrite Hn in E.
Qed.

(** The loop of line 71, when it completes: one new buffer per detection,
    each of the frame's shape, and one label per detection. *)
Lemma for_each_draw_structure (frame : loc) (results : Results)
    (colors : list Pixel) (alpha : Q) (fr : Frame)
    (dets : list (Mask * BoxRow * Z)) :
  ∀ (a : loc) (w : World) (a' : loc) (w' : World) (src : Frame),
    for_each (draw_detection frame results colors alpha) a dets w = (Ok a', w') →
    heap w !! frame = Some fr →
    heap w !! a = Some src →
    length <$> src = length <$> fr →
    ∃ (out : Frame) (labels : list string),
      heap w' !! a' = Some out ∧
      length <$> out = length <$> fr ∧
      heap w' !! frame = Some fr ∧
      length (heap w') = (length (heap w) + length dets)%nat ∧
      a' = (if dets is [] then a else length (heap w) + length dets - 1)%nat ∧
      Forall2 (λ det label, label_of results det = Some label) dets labels ∧
      trace w' = (EvPutText <$> reverse labels) ++ trace w ∧
      np_random w' = np_random w.
Proof.
  induction dets as [|[[mask box] k] dets IH]; intros a w a' w' src E Hfr Hsrc Ess.
  - rewrite for_each_nil in E. unfold ret in E. simplify_eq.
    exists src, []. split_and!; try done; try (simpl; lia); try constructor.
  - rewrite for_each_cons in E. unfold bind in E.
    destruct (draw_detection _ _ _ _ a _ w) as [[a1|e] w1] eqn:Ed; [|done].
    destruct (draw_detection_ok_inv _ _ _ _ _ _ _ _ _ _ _ Ed)
      as (fr0 & src0 & color & name & Hfr0 & Hsrc0 & _ & Emr & Hcol & Hn).
    simplify_eq.
    destruct (draw_detection_run frame results colors alpha a mask box k w
                fr src color name Hfr Hsrc Ess Emr Hcol Hn)
      as (dst & Hrun & Hshape & _).
    rewrite Hrun in Ed. simplify_eq.
    assert (Hlt : (frame < length (heap w))%nat) by by eapply lookup_lt_Some.
    edestruct (IH _ _ _ _ (box_and_label box color (label_text name (box_conf box)) dst) E)
      as (out & labels & Ho & Hso & Hf & Hlen & Ha' & Hl & Ht & Hg).
    { simpl. by rewrite lookup_app_l. }
    { simpl. by apply list_lookup_middle. }
    { rewrite shape_box_and_label. congruence. }
    exists out, (label_text name (box_conf box) :: labels).
    simpl in Hlen, Ha', Ht, Hg. rewrite length_app in Hlen, Ha'. simpl in Hlen, Ha'.
    split_and!; try done.
    + simpl. lia.
    + rewrite Ha'. destruct dets; simpl; lia.
    + constructor; [|done]. unfold label_of. simpl. by rewrite Hn.
    + rewrite Ht, reverse_cons, fmap_app, <- app_assoc. done.
Qed.

(** The same loop seen from one pixel that no box and no label paints: the
    masks are blended over it one after the other. *)
Lemma for_each_draw_pixel (frame : loc) (results : Results)
    (colors : list Pixel) (alpha : Q) (fr : Frame) (r c : nat)
    (dets : list (Mask * BoxRow * Z)) :
  ∀ (a : loc) (w : World) (a' : loc) (w' : World) (src : Frame) (p : Pixel),
    for_each (draw_detection frame results colors alpha) a dets w = (Ok a', w') →
    heap w !! frame = Some fr →
    heap w !! a = Some src →
    at_px src r c = Some p →
    pixel_u8 p = true →
    fits_float32 alpha = true →
    any_box_label_covers results dets (Z.of_nat c) (Z.of_nat r) = false →
    ∃ out : Frame,
      heap w' !! a' = Some out ∧
      at_px out r c = Some (composite_detections alpha colors fr r c p dets).
Proof.
  induction dets as [|[[mask box] k] dets IH];
    intros a w a' w' src p E Hfr Hsrc Hp Hu8 Hfit Hcov.
  - rewrite for_each_nil in E. unfold ret in E. simplify_eq. by exists src.
  - rewrite for_each_cons in E. unfold bind in E.
    destruct (draw_detection _ _ _ _ a _ w) as [[a1|e] w1] eqn:Ed; [|done].
    destruct (draw_detection_ok_inv _ _ _ _ _ _ _ _ _ _ _ Ed)
      as (fr0 & src0 & color & name & Hfr0 & Hsrc0 & Ess & Emr & Hcol & Hn).
    simplify_eq.
    destruct (draw_detection_run frame results colors alpha a mask box k w
                fr src color name Hfr Hsrc Ess Emr Hcol Hn)
      as (dst & Hrun & Hshape & Hpx).
    rewrite Hrun in Ed. simplify_eq.
    assert (Hlt : (frame < length (heap w))%nat) by by eapply lookup_lt_Some.
    simpl in Hcov. apply orb_false_iff in Hcov as [Hc1 Hcov].
    unfold label_of in Hc1. simpl in Hc1. rewrite Hn in Hc1. simpl in Hc1.
    destruct (at_px_shape src (cv2_resize mask (width fr, height fr)) r c)
      as [v Hv]; [congruence|by eexists|].
    set (p1 := if mask_covers fr mask r c then composite_f32_px alpha p color else p).
    assert (Hp1 : at_px (box_and_label box color (label_text name (box_conf box)) dst) r c
                  = Some p1).
    { rewrite at_px_box_and_label by done. rewrite Hpx, Hp, Hv. simpl.
      unfold p1, mask_covers. rewrite Hv.
      destruct (Qle_bool v (1 # 2)); simpl.
      - by rewrite addWeighted_px_zero.
      - by rewrite addWeighted_px_script. }
    assert (Hu1 : pixel_u8 p1 = true).
    { unfold p1. destruct (mask_covers fr mask r c); [apply composite_f32_px_u8|done]. }
    edestruct (IH _ _ _ _ (box_and_label box color (label_text name (box_conf box)) dst) p1 E)
      as (out & Ho & Hout); try done.
    { simpl. by rewrite lookup_app_l. }
    { simpl. by apply list_lookup_middle. }
    exists out. split; [done|]. rewrite Hout.
    unfold composite_detections. simpl. by rewrite Hcol.
Qed.

End Fold.

(** ** A class without a name *)

Section Outcome.
Context `{NumpyRandom, Cv2}.

Lemma draw_box_label_no_name (results : Results) (a : loc) (box : BoxRow)
    (class_id : Z) (color : Pixel) (w : World) (img : Frame) :
  heap w !! a = Some img →
  names_get (names results) class_id = None →
  draw_box_label results a box class_id color w
  = (Raise KeyError,
     set_heap (<[a := paint (rectangle_covers
                           (int_of (box_x1 box), int_of (box_y1 box))
                           (int_of (box_x2 box), int_of (box_y2 box)) 2) color img]>
                 (heap w)) w).
Proof.
  intros Ha Hn. unfold draw_box_label, bind.
  rewrite (cv2_rectangle_run _ _ _ _ _ _ img Ha).
  unfold lift. by rewrite Hn.
Qed.

End Outcome.

(** ** The renderer as a whole *)

Section Renderer.
Context `{NumpyRandom, Cv2}.

Lemma custom_visualization_unfold (frame : loc) (results : Results) (alpha : Q)
    (w : World) (fr : Frame) :
  heap w !! frame = Some fr →
  custom_visualization frame results alpha w
  = match masks results with
    | None => (Ok (length (heap w)), set_heap (heap w ++ [fr]) w)
    | Some _ =>
      for_each
        (draw_detection frame results
           (draw_rows 0 255 (names_len (names results)) (seed_state 42)).1 alpha)
        (length (heap w)) (detections results)
        (set_np_random (draw_rows 0 255 (names_len (names results)) (seed_state 42)).2
           (set_heap (heap w ++ [fr]) w))
    end.
Proof.
  intros Hfr. unfold custom_visualization.
  rewrite (bind_ok _ _ _ _ _ (load_ok _ _ _ Hfr)).
  rewrite (bind_ok (alloc fr) _ w _ _ eq_refl).
  destruct (masks results); [|done].
  by rewrite (bind_ok _ _ _ _ _ (class_colors_run _ _ _)).
Qed.

Lemma detections_no_masks (results : Results) :
  masks results = None → detections results = [].
Proof. unfold detections. by intros ->. Qed.

(** X1. Seen from a pixel that no box and no label paints, and for an alpha
    in the range of single precision, the renderer is a left fold over the
    detections in their order: each detection whose thresholded mask covers
    the pixel adds alpha times its class colour, in single precision, rounded
    and clamped to 8 bits, to what the detections before it left. *)
Theorem mask_compositing_is_fold (frame : loc) (results : Results) (alpha : Q)
    (w w' : World) (a : loc) (fr : Frame) (r c : nat) (p : Pixel) :
  custom_visualization frame results alpha w = (Ok a, w') →
  heap w !! frame = Some fr →
  at_px fr r c = Some p →
  pixel_u8 p = true →
  fits_float32 alpha = true →
  any_box_label_covers results (detections results) (Z.of_nat c) (Z.of_nat r) = false →
  ∃ out : Frame,
    heap w' !! a = Some out ∧
    at_px out r c
    = Some (composite_detections alpha
              (draw_rows 0 255 (names_len (names results)) (seed_state 42)).1
              fr r c p (detections results)).
Proof.
  intros E Hfr Hp Hu8 Hfit Hcov.
  rewrite (custom_visualization_unfold _ _ _ _ _ Hfr) in E.
  assert (Hlt : (frame < length (heap w))%nat) by by eapply lookup_lt_Some.
  destruct (masks results) as [ms|] eqn:Hm.
  - eapply for_each_draw_pixel in E; try done.
    + simpl. by rewrite lookup_app_l.
    + simpl. by apply list_lookup_middle.
  - simplify_eq. rewrite (detections_no_masks _ Hm). simpl.
    exists fr. split; [by apply list_lookup_middle|done].
Qed.

(** X3. When the renderer returns, the image it returns has the shape of
    the frame: as many rows, and rows of the same lengths, however many
    detections were drawn. *)
Theorem output_has_frame_shape (frame : loc) (results : Results) (alpha : Q)
    (w w' : World) (a : loc) (fr : Frame) :
  custom_visualization frame results alpha w = (Ok a, w') →
  heap w !! frame = Some fr →
  ∃ out : Frame,
    heap w' !! a = Some out ∧
    length <$> out = length <$> fr ∧
    height out = height fr ∧
    width out = width fr.
Proof.
  intros E Hfr.
  rewrite (custom_visualization_unfold _ _ _ _ _ Hfr) in E.
  assert (Hlt : (frame < length (heap w))%nat) by by eapply lookup_lt_Some.
  assert (∃ out : Frame, heap w' !! a = Some out ∧ length <$> out = length <$> fr)
    as (out & Ho & Hs).
  { destruct (masks results) as [ms|] eqn:Hm.
    - eapply (for_each_draw_structure _ _ _ _ fr) in E
        as (out & labels & Ho & Hs & _); try done.
      + by exists out.
      + simpl. by rewrite lookup_app_l.
      + simpl. by apply list_lookup_middle.
    - simplify_eq. exists fr. split; [|done]. simpl. by apply list_lookup_middle. }
  exists out. split_and!; [done|done|..].
  - unfold height. by rewrite <- (length_fmap length out), Hs, length_fmap.
  - unfold width. destruct out as [|ro out], fr as [|rf fr]; simplify_eq/=; done.
Qed.


End Renderer.

(** ** Labels and display flags *)

Section Labels.
Context `{NumpyRandom, Cv2, Yolo}.


End Labels.

Section Renderer.
Context `{NumpyRandom, Cv2}.

Lemma draw_box_label_np_random (results : Results) (a : loc) (box : BoxRow)
    (class_id : Z) (color : Pixel) (w w' : World) (o : outcome unit) :
  draw_box_label results a box class_id color w = (o, w') →
  np_random w' = np_random w.
Proof.
  intros E.
  destruct (heap w !! a) as [img|] eqn:Ha.
  - destruct (names_get (names results) class_id) as [name|] eqn:Hn.
    + rewrite (draw_box_label_run _ _ _ _ _ _ img name Ha Hn) in E. by simplify_eq.
    + rewrite (draw_box_label_no_name _ _ _ _ _ _ img Ha Hn) in E. by simplify_eq.
  - unfold draw_box_label, bind, cv2_rectangle, bind, load in E.
    rewrite Ha in E. by simplify_eq.
Qed.

Lemma draw_detection_np_random (frame : loc) (results : Results)
    (colors : list Pixel) (alpha : Q) (annotated : loc)
    (det : Mask * BoxRow * Z) (w w' : World) (o : outcome loc) :
  draw_detection frame results colors alpha annotated det w = (o, w') →
  np_random w' = np_random w.
Proof.
  destruct det as [[mask box] k]. unfold draw_detection, bind. intros E.
  destruct (blend_mask _ _ _ _ _ _ w) as [r w1] eqn:Eb.
  apply blend_mask_renders in Eb.
  destruct r as [[a color]|e]; [|destruct Eb; by simplify_eq].
  destruct Eb as [-> [dst ->]].
  destruct (draw_box_label _ _ _ _ _ _) as [r w2] eqn:Ed.
  apply draw_box_label_np_random in Ed.
  destruct r as [[]|e]; unfold ret in E; by simplify_eq.
Qed.

Lemma for_each_draw_np_random (frame : loc) (results : Results)
    (colors : list Pixel) (alpha : Q) (dets : list (Mask * BoxRow * Z)) :
  ∀ (a : loc) (w w' : World) (o : outcome loc),
    for_each (draw_detection frame results colors alpha) a dets w = (o, w') →
    np_random w' = np_random w.
Proof.
  induction dets as [|det dets IH]; intros a w w' o E.
  - rewrite for_each_nil in E. unfold ret in E. by simplify_eq.
  - rewrite for_each_cons in E. unfold bind in E.
    destruct (draw_detection _ _ _ _ a det w) as [[a1|e] w1] eqn:Ed.
    + apply draw_detection_np_random in Ed. apply IH in E. congruence.
    + apply draw_detection_np_random in Ed. by simplify_eq.
Qed.

(** X7. A call of the renderer on a result with masks leaves NumPy's global
    generator in the state reached by seeding it with 42 and drawing the
    colour table, whatever its state was before and whether or not the call
    raises; on a result without masks the generator is not touched. *)
Theorem renderer_reseeds_generator (frame : loc) (results : Results)
    (alpha : Q) (w : World) (fr : Frame) :
  heap w !! frame = Some fr →
  np_random (custom_visualization frame results alpha w).2
  = match masks results with
    | None => np_random w
    | Some _ => (draw_rows 0 255 (names_len (names results)) (seed_state 42)).2
    end.
Proof.
  intros Hfr. rewrite (custom_visualization_unfold _ _ _ _ _ Hfr).
  destruct (masks results) as [ms|]; [|done].
  destruct (for_each _ _ _ _) as [o w'] eqn:E.
  by apply for_each_draw_np_random in E.
Qed.

Lemma for_each_app {A B} (body : A → B → M A) (l1 l2 : list B) :
  ∀ (a : A) (w : World),
    for_each body a (l1 ++ l2) w
    = bind (for_each body a l1) (λ a', for_each body a' l2) w.
Proof.
  induction l1 as [|x l1 IH]; intros a w; [done|].
  change ((x :: l1) ++ l2) with (x :: (l1 ++ l2)).
  rewrite !for_each_cons. unfold bind.
  destruct (body a x w) as [[a1|e] w1]; [|done].
  rewrite IH. done.
Qed.

(** X8. The label of the last detection lies on top: in the returned image
    every pixel its text covers is white, and every other pixel that its
    label background or its box outline covers has its class colour. *)
Theorem last_label_on_top (frame : loc) (results : Results) (alpha : Q)
    (w w' : World) (a : loc) (fr : Frame)
    (dets : list (Mask * BoxRow * Z)) (mask : Mask) (box : BoxRow) (k : Z)
    (name : string) (color : Pixel) (r c : nat) (p : Pixel) :
  let colors := (draw_rows 0 255 (names_len (names results)) (seed_state 42)).1 in
  let label := label_text name (box_conf box) in
  let x1 := int_of (box_x1 box) in
  let y1 := int_of (box_y1 box) in
  let x2 := int_of (box_x2 box) in
  let y2 := int_of (box_y2 box) in
  let size := cv2_getTextSize label (1 # 2) 2 in
  custom_visualization frame results alpha w = (Ok a, w') →
  heap w !! frame = Some fr →
  detections results = dets ++ [(mask, box, k)] →
  names_get (names results) k = Some name →
  np_getitem colors k = Ok color →
  at_px fr r c = Some p →
  ∃ out : Frame,
    heap w' !! a = Some out ∧
    (putText_covers label (x1 + 4, y1 - 4) (1 # 2) 2 (Z.of_nat c) (Z.of_nat r) = true →
     at_px out r c = Some (255, 255, 255)) ∧
    (putText_covers label (x1 + 4, y1 - 4) (1 # 2) 2 (Z.of_nat c) (Z.of_nat r) = false →
     rectangle_covers (x1, y1 - size.2 - 8) (x1 + size.1 + 8, y1) (-1)
       (Z.of_nat c) (Z.of_nat r)
     || rectangle_covers (x1, y1) (x2, y2) 2 (Z.of_nat c) (Z.of_nat r) = true →
     at_px out r c = Some color).
Proof.
  intros colors label x1 y1 x2 y2 size E Hfr Hd Hn Hcol Hp.
  rewrite (custom_visualization_unfold _ _ _ _ _ Hfr) in E.
  assert (Hlt : (frame < length (heap w))%nat) by by eapply lookup_lt_Some.
  destruct (masks results) as [ms|] eqn:Hm.
  2:{ rewrite (detections_no_masks _ Hm) in Hd. by destruct dets. }
  fold colors in E. rewrite Hd, for_each_app in E. unfold bind in E.
  set (w0 := set_np_random _ _) in E.
  destruct (for_each (draw_detection frame results colors alpha) (length (heap w)) dets w0)
    as [[a1|e] w1] eqn:E1; [|done].
  eapply (for_each_draw_structure _ _ _ _ fr) in E1
    as (src & labels & Hsrc & Hss & Hfr1 & _); try done.
  2:{ simpl. by rewrite lookup_app_l. }
  2:{ simpl. by apply list_lookup_middle. }
  rewrite for_each_cons in E. unfold bind in E.
  destruct (draw_detection frame results colors alpha a1 (mask, box, k) w1)
    as [[a2|e] w2] eqn:E2; [|done].
  rewrite for_each_nil in E. unfold ret in E. simplify_eq.
  destruct (draw_detection_ok_inv _ _ _ _ _ _ _ _ _ _ _ E2)
    as (fr0 & src0 & color0 & name0 & Hfr0 & Hsrc0 & _ & Emr & Hcol0 & Hn0).
  simplify_eq.
  destruct (draw_detection_run frame results colors alpha a1 mask box k w1
              fr src color name Hfr1 Hsrc Hss Emr Hcol Hn)
    as (dst & Hrun & Hshape & _).
  rewrite Hrun in E2. simplify_eq.
  eexists. split; [simpl; by apply list_lookup_middle|].
  destruct (at_px_shape fr dst r c) as [q Hq]; [congruence|by eexists|].
  unfold box_and_label. fold label x1 y1 x2 y2 size.
  destruct size as [tw th] eqn:Hsize. simpl.
  rewrite !at_px_paint, Hq. simpl. split.
  - by intros ->.
  - intros -> Hor. apply orb_true_iff in Hor as [->| ->]; [done|].
    by destruct (rectangle_covers (x1, y1 - th - 8) (x1 + tw + 8, y1) (-1) _ _).
Qed.

End Renderer.

(** ** Frame-rate values *)

Section Fps.
Context `{NumpyRandom}.

(** X9. After any number of passes inside the window, the pass that reaches
    the window boundary displays the number of frames counted since the
    last reset, itself included, divided by the time since the window
    start, and restarts the count at 0. *)
Theorem fps_rate_after_window (n : nat) (v : FpsVars) (w : World) :
  (∀ i : nat, (i < n)%nat →
     (clock w (clock_reads w + i)%nat - start_time v < 1)%Q) →
  (1 <= clock w (clock_reads w + n)%nat - start_time v)%Q →
  (bind (fps_ticks n v) fps_update w).1
  = Ok {| frame_count := 0;
          start_time := clock w (S (clock_reads w + n));
          fps_display := (inject_Z (frame_count v + Z.of_nat n + 1)
                          / (clock w (clock_reads w + n)%nat - start_time v))%Q |}.
Proof.
  intros Hin Hb. unfold bind. rewrite (fps_ticks_inside n v w Hin).
  rewrite fps_update_boundary; [done|]. exact Hb.
Qed.

(** X10. The count of frames is never negative, and at a window boundary
    the displayed rate is positive and at most the number of frames
    counted: the elapsed time it is divided by is at least 1. *)
Theorem fps_rate_bounds (v v' : FpsVars) (w w' : World) :
  fps_update v w = (Ok v', w') →
  0 ≤ frame_count v →
  0 ≤ frame_count v' ∧
  ((1 <= clock w (clock_reads w) - start_time v)%Q →
   (0 < fps_display v')%Q ∧
   (fps_display v' <= inject_Z (frame_count v + 1))%Q ∧
   frame_count v' = 0) ∧
  ((clock w (clock_reads w) - start_time v < 1)%Q →
   fps_display v' = fps_display v ∧ frame_count v' = frame_count v + 1).
Proof.
  intros E Hc.
  set (el := (clock w (clock_reads w) - start_time v)%Q) in *.
  destruct (Qlt_le_dec el 1) as [Hin|Hb].
  - rewrite (fps_update_inside v w Hin) in E. simplify_eq. simpl.
    split; [lia|]. split; [|done]. intros Hb. lra.
  - rewrite (fps_update_boundary v w Hb) in E. simplify_eq. simpl.
    split; [lia|]. split; [|intros Hin; lra]. intros _.
    fold el.
    assert (Hn : (1 <= inject_Z (frame_count v + 1))%Q).
    { change 1%Q with (inject_Z 1). apply inject_Z_le. lia. }
    assert (Hel : (0 < el)%Q) by lra.
    split_and!; [| |done].
    + apply Qlt_shift_div_l; [done|]. lra.
    + apply Qle_shift_div_r; [done|].
      assert (Hm : (inject_Z (frame_count v + 1) * 1
                    <= inject_Z (frame_count v + 1) * el)%Q).
      { apply Qmult_le_l; lra. }
      lra.
Qed.

End Fps.

(** ** Counting the events of a run *)

(** ** Counting the events of the loop *)

Lemma land_255_mod (k : Z) : Z.land k 255 = k mod 256.
Proof. change 255 with (Z.ones 8). by rewrite Z.land_ones. Qed.

Lemma count_loop_no_quit (args : Namespace) (ow : option unit) (ks : nat → Z)
    (e : Event) (m : nat) :
  (∀ key, count_occ Event_eq_dec (pass_events args ow key) e = m) →
  ∀ (frames : list Frame) (polls : nat),
    (∀ i : nat, (i < length frames)%nat → (ks (polls + i)%nat) mod 256 ≠ 113) →
    count_occ Event_eq_dec (loop_events args ow frames ks polls) e
    = (length frames * m + count_occ Event_eq_dec [EvRead false] e)%nat.
Proof.
  intros Hm. induction frames as [|f fs IH]; intros polls Hk; [done|].
  cbn [loop_events length].
  pose proof (Hk 0%nat ltac:(simpl; lia)) as K0.
  rewrite Nat.add_0_r, <- land_255_mod in K0. apply Z.eqb_neq in K0. rewrite K0.
  rewrite count_occ_app, Hm, IH; [lia|].
  intros i Hi. specialize (Hk (S i)).
  replace (S polls + i)%nat with (polls + S i)%nat by lia.
  apply Hk. simpl. lia.
Qed.

Lemma count_loop_quit (args : Namespace) (ow : option unit) (ks : nat → Z)
    (e : Event) (m : nat) :
  (∀ key, count_occ Event_eq_dec (pass_events args ow key) e = m) →
  ∀ (frames : list Frame) (polls j : nat),
    (j < length frames)%nat →
    (∀ i : nat, (i < j)%nat → (ks (polls + i)%nat) mod 256 ≠ 113) →
    (ks (polls + j)%nat) mod 256 = 113 →
    count_occ Event_eq_dec (loop_events args ow frames ks polls) e = (S j * m)%nat.
Proof.
  intros Hm. induction frames as [|f fs IH]; intros polls j Hj Hbefore Hq;
    [simpl in Hj; lia|].
  cbn [loop_events]. destruct j as [|j].
  - rewrite Nat.add_0_r, <- land_255_mod in Hq. apply Z.eqb_eq in Hq. rewrite Hq.
    simpl app. rewrite Hm. lia.
  - pose proof (Hbefore 0%nat ltac:(lia)) as K0.
    rewrite Nat.add_0_r, <- land_255_mod in K0. apply Z.eqb_neq in K0. rewrite K0.
    rewrite count_occ_app, Hm, (IH (S polls) j); [lia|simpl in Hj; lia| |].
    + intros i Hi. specialize (Hbefore (S i)).
      replace (S polls + i)%nat with (polls + S i)%nat by lia.
      apply Hbefore. lia.
    + by replace (S polls + j)%nat with (polls + S j)%nat by lia.
Qed.

Lemma count_loop_writes (args : Namespace) (ow : option unit) (ks : nat → Z) :
  ∀ (frames : list Frame) (polls : nat),
    count_occ Event_eq_dec (loop_events args ow frames ks polls) EvWrite
    = match ow with
      | Some _ => count_occ Event_eq_dec (loop_events args ow frames ks polls) EvImshow
      | None => 0%nat
      end ∧
    count_occ Event_eq_dec (loop_events args ow frames ks polls) EvWriterOpen = 0%nat.
Proof.
  induction frames as [|f fs IH]; intros polls.
  - simpl. by destruct ow.
  - cbn [loop_events]. rewrite !count_occ_app.
    destruct (IH (S polls)) as [IH1 IH2].
    assert (Hp : count_occ Event_eq_dec (pass_events args ow (ks polls)) EvWrite
                 = match ow with Some _ => 1%nat | None => 0%nat end
                 ∧ count_occ Event_eq_dec (pass_events args ow (ks polls)) EvImshow = 1%nat
                 ∧ count_occ Event_eq_dec (pass_events args ow (ks polls)) EvWriterOpen
                   = 0%nat).
    { unfold pass_events. by destruct ow, (args_custom_visualization args). }
    destruct Hp as (Hp1 & Hp2 & Hp3). rewrite Hp1, Hp2, Hp3.
    destruct (Z.land (ks polls) 255 =? 113).
    + simpl. by destruct ow.
    + rewrite IH1, IH2. by destruct ow.
Qed.

Lemma count_pass_events (args : Namespace) (ow : option unit) (key : Z) :
  count_occ Event_eq_dec (pass_events args ow key) EvDetect = 1%nat ∧
  count_occ Event_eq_dec (pass_events args ow key) EvImshow = 1%nat ∧
  count_occ Event_eq_dec (pass_events args ow key) (EvRead true) = 1%nat ∧
  count_occ Event_eq_dec (pass_events args ow key) (EvRead false) = 0%nat ∧
  count_occ Event_eq_dec (pass_events args ow key) EvCapRelease = 0%nat.
Proof.
  unfold pass_events. by destruct ow, (args_custom_visualization args).
Qed.

Section Loop.
Context `{NumpyRandom, Cv2, Yolo}.

(** What [main_spec] says about the number of occurrences of an event that
    is not a text drawing. *)
Lemma main_count (fuel : nat) (args : Namespace) (w : World) :
  cap_opened w = true →
  (length (cap_frames w) < fuel)%nat →
  ∃ (o : outcome unit) (w' : World),
    main fuel args w = (o, w') ∧
    o ≠ Raise OutOfFuel ∧
    (args_custom_visualization args = false → o = Ok tt) ∧
    (o = Ok tt →
     ∃ new : list Event,
       trace w' = new ++ trace w ∧
       ∀ e : Event,
         (∀ s, e ≠ EvPutText s) →
         count_occ Event_eq_dec new e
         = (count_occ Event_eq_dec
              ((EvDestroyAllWindows
                  :: (if args_save args then [EvWriterRelease] else []))
               ++ [EvCapRelease]) e
            + count_occ Event_eq_dec
                (loop_events args (if args_save args then Some tt else None)
                   (cap_frames w) (keys w) (key_polls w)) e
            + count_occ Event_eq_dec
                (if args_save args then [EvWriterOpen] else []) e)%nat).
Proof.
  intros Ho Hlen.
  destruct (main_spec fuel args w Ho Hlen) as (o & w' & E & Hres).
  exists o, w'. split; [done|].
  destruct o as [[]|e].
  2:{ destruct Hres as [He Hc]. split_and!; [congruence|congruence|done]. }
  split_and!; [done|done|]. intros _.
  destruct Hres as (new & Ht & Hn & _). exists new. split; [done|].
  intros e He. rewrite <- (count_occ_control e new He), Hn.
  set (rel := if args_save args then [EvWriterRelease] else []).
  set (body := loop_events _ _ _ _ _).
  set (opn := if args_save args then [EvWriterOpen] else []).
  change (EvDestroyAllWindows :: rel ++ EvCapRelease :: body ++ opn)
    with ((EvDestroyAllWindows :: rel) ++ [EvCapRelease] ++ body ++ opn).
  rewrite !count_occ_app. lia.
Qed.

(** X11. Without a quit key the loop handles every frame of the source
    once, whatever their number: as many detector calls, displays and
    successful reads as there are frames, and one failed read at the end. *)
Theorem loop_processes_every_frame (fuel : nat) (args : Namespace) (w : World) :
  cap_opened w = true →
  (length (cap_frames w) < fuel)%nat →
  (∀ i : nat, (i < length (cap_frames w))%nat →
     (keys w (key_polls w + i)%nat) mod 256 ≠ 113) →
  ∃ (o : outcome unit) (w' : World),
    main fuel args w = (o, w') ∧
    o ≠ Raise OutOfFuel ∧
    (args_custom_visualization args = false → o = Ok tt) ∧
    (o = Ok tt →
     ∃ new : list Event,
       trace w' = new ++ trace w ∧
       count_occ Event_eq_dec new EvDetect = length (cap_frames w) ∧
       count_occ Event_eq_dec new EvImshow = length (cap_frames w) ∧
       count_occ Event_eq_dec new (EvRead true) = length (cap_frames w) ∧
       count_occ Event_eq_dec new (EvRead false) = 1%nat).
Proof.
  intros Ho Hlen Hk.
  destruct (main_count fuel args w Ho Hlen) as (o & w' & E & Hf & Hb & Hok).
  exists o, w'. split_and!; try done. intros Hoo.
  destruct (Hok Hoo) as (new & Ht & Hc). exists new. split; [done|].
  set (ow := if args_save args then Some tt else None) in *.
  rewrite !Hc by done.
  rewrite (count_loop_no_quit args ow (keys w) EvDetect 1
             ltac:(intros; apply count_pass_events) _ _ Hk).
  rewrite (count_loop_no_quit args ow (keys w) EvImshow 1
             ltac:(intros; apply count_pass_events) _ _ Hk).
  rewrite (count_loop_no_quit args ow (keys w) (EvRead true) 1
             ltac:(intros; apply count_pass_events) _ _ Hk).
  rewrite (count_loop_no_quit args ow (keys w) (EvRead false) 0
             ltac:(intros; apply count_pass_events) _ _ Hk).
  destruct (args_save args); simpl; split_and!; lia.
Qed.

(** X12. A key whose code is 113 modulo 256, read at the end of pass j + 1
    with no such key before, ends the loop there: j + 1 frames were read,
    detected and displayed, no further read is attempted, and the source is
    released. *)
Theorem quit_key_stops_loop (fuel : nat) (args : Namespace) (w : World) (j : nat) :
  cap_opened w = true →
  (length (cap_frames w) < fuel)%nat →
  (j < length (cap_frames w))%nat →
  (∀ i : nat, (i < j)%nat → (keys w (key_polls w + i)%nat) mod 256 ≠ 113) →
  (keys w (key_polls w + j)%nat) mod 256 = 113 →
  ∃ (o : outcome unit) (w' : World),
    main fuel args w = (o, w') ∧
    o ≠ Raise OutOfFuel ∧
    (args_custom_visualization args = false → o = Ok tt) ∧
    (o = Ok tt →
     ∃ new : list Event,
       trace w' = new ++ trace w ∧
       count_occ Event_eq_dec new EvDetect = S j ∧
       count_occ Event_eq_dec new EvImshow = S j ∧
       count_occ Event_eq_dec new (EvRead true) = S j ∧
       count_occ Event_eq_dec new (EvRead false) = 0%nat ∧
       count_occ Event_eq_dec new EvCapRelease = 1%nat).
Proof.
  intros Ho Hlen Hj Hbefore Hq.
  destruct (main_count fuel args w Ho Hlen) as (o & w' & E & Hf & Hb & Hok).
  exists o, w'. split_and!; try done. intros Hoo.
  destruct (Hok Hoo) as (new & Ht & Hc). exists new. split; [done|].
  set (ow := if args_save args then Some tt else None) in *.
  rewrite !Hc by done.
  rewrite (count_loop_quit args ow (keys w) EvDetect 1
             ltac:(intros; apply count_pass_events) _ _ j Hj Hbefore Hq).
  rewrite (count_loop_quit args ow (keys w) EvImshow 1
             ltac:(intros; apply count_pass_events) _ _ j Hj Hbefore Hq).
  rewrite (count_loop_quit args ow (keys w) (EvRead true) 1
             ltac:(intros; apply count_pass_events) _ _ j Hj Hbefore Hq).
  rewrite (count_loop_quit args ow (keys w) (EvRead false) 0
             ltac:(intros; apply count_pass_events) _ _ j Hj Hbefore Hq).
  rewrite (count_loop_quit args ow (keys w) EvCapRelease 0
             ltac:(intros; apply count_pass_events) _ _ j Hj Hbefore Hq).
  destruct (args_save args); simpl; split_and!; lia.
Qed.

(** X13. Recording follows the display: with saving enabled the writer is
    opened once, every displayed frame is written once and the writer is
    released once; with saving disabled no writer is opened, written to or
    released. *)
Theorem recording_follows_display (fuel : nat) (args : Namespace) (w : World) :
  cap_opened w = true →
  (length (cap_frames w) < fuel)%nat →
  ∃ (o : outcome unit) (w' : World),
    main fuel args w = (o, w') ∧
    o ≠ Raise OutOfFuel ∧
    (args_custom_visualization args = false → o = Ok tt) ∧
    (o = Ok tt →
     ∃ new : list Event,
       trace w' = new ++ trace w ∧
       count_occ Event_eq_dec new EvWrite
         = (if args_save args then count_occ Event_eq_dec new EvImshow else 0%nat) ∧
       count_occ Event_eq_dec new EvWriterOpen
         = (if args_save args then 1%nat else 0%nat) ∧
       count_occ Event_eq_dec new EvWriterRelease
         = (if args_save args then 1%nat else 0%nat)).
Proof.
  intros Ho Hlen.
  destruct (main_count fuel args w Ho Hlen) as (o & w' & E & Hf & Hb & Hok).
  exists o, w'. split_and!; try done. intros Hoo.
  destruct (Hok Hoo) as (new & Ht & Hc). exists new. split; [done|].
  set (ow := if args_save args then Some tt else None) in *.
  rewrite !Hc by done.
  destruct (count_loop_writes args ow (keys w) (cap_frames w) (key_polls w))
    as [Hw Hopen].
  destruct (loop_events_no_release args ow (cap_frames w) (keys w) (key_polls w))
    as [_ Hrel].
  assert (Hrel0 : count_occ Event_eq_dec
                    (loop_events args ow (cap_frames w) (keys w) (key_polls w))
                    EvWriterRelease = 0%nat).
  { apply count_occ_not_In. intros Hin. apply Hrel. by apply list_elem_of_In. }
  rewrite Hw, Hopen, Hrel0. unfold ow.
  destruct (args_save args); simpl; split_and!; lia.
Qed.

End Loop.

(** ** Runs that end in an exception *)

Section Held.
Context `{NumpyRandom, Cv2, Yolo}.

Lemma still_held_refl (w : World) : still_held w w.
Proof. split; [done|]. exists []. split; [done|constructor]. Qed.

Lemma still_held_same (w w' : World) :
  cap_opened w' = cap_opened w → trace w' = trace w → still_held w w'.
Proof. intros Ho Ht. split; [done|]. exists []. split; [done|constructor]. Qed.

Lemma still_held_trans (w1 w2 w3 : World) :
  still_held w1 w2 → still_held w2 w3 → still_held w1 w3.
Proof.
  intros [Ho1 (n1 & T1 & F1)] [Ho2 (n2 & T2 & F2)]. split; [congruence|].
  exists (n2 ++ n1). split; [by rewrite T2, T1, app_assoc|].
  by apply Forall_app.
Qed.

Lemma still_held_emit (e : Event) (w : World) :
  e ≠ EvCapRelease → e ≠ EvWriterRelease → e ≠ EvDestroyAllWindows →
  still_held w (set_trace (e :: trace w) w).
Proof.
  intros. split; [done|]. exists [e]. split; [done|]. by repeat constructor.
Qed.

Lemma renders_still_held (w w' : World) : renders w w' → still_held w w'.
Proof.
  intros (_ & [texts Ht] & _ & _ & _ & Ho & _). split; [done|].
  exists (EvPutText <$> texts). split; [done|].
  apply Forall_fmap, Forall_forall. intros s _. simpl. by split_and!.
Qed.

Lemma holds_bind {A B} (m : M A) (k : A → M B) :
  holds m → (∀ a, holds (k a)) → holds (bind m k).
Proof.
  intros Hm Hk w o w' E. unfold bind in E.
  destruct (m w) as [[a|e] w1] eqn:Em.
  - eapply still_held_trans; [by eapply Hm|by eapply Hk].
  - simplify_eq. by eapply Hm.
Qed.

Lemma holds_ret {A} (a : A) : holds (ret a).
Proof. intros w o w' E. unfold ret in E. simplify_eq. apply still_held_refl. Qed.

Lemma holds_lift {A} (x : outcome A) : holds (lift x).
Proof. intros w o w' E. unfold lift in E. simplify_eq. apply still_held_refl. Qed.

Lemma holds_emit (e : Event) :
  e ≠ EvCapRelease → e ≠ EvWriterRelease → e ≠ EvDestroyAllWindows →
  holds (emit e).
Proof.
  intros ? ? ? w o w' E. unfold emit in E. simplify_eq. by apply still_held_emit.
Qed.

Lemma holds_load (l : loc) : holds (load l).
Proof.
  intros w o w' E. unfold load in E.
  destruct (heap w !! l); simplify_eq; apply still_held_refl.
Qed.

Lemma holds_alloc (f : Frame) : holds (alloc f).
Proof. intros w o w' E. unfold alloc in E. simplify_eq. by apply still_held_same. Qed.

Lemma holds_store (l : loc) (f : Frame) : holds (store l f).
Proof. intros w o w' E. unfold store in E. simplify_eq. by apply still_held_same. Qed.

Lemma holds_putText (img : loc) (text : string) (org : Z * Z) (scale : Q)
    (color : Pixel) (thickness : Z) :
  holds (cv2_putText img text org scale color thickness).
Proof.
  unfold cv2_putText. apply holds_bind; [apply holds_load|]. intros f.
  apply holds_bind; [apply holds_store|]. intros _. by apply holds_emit.
Qed.

Lemma holds_custom_visualization (frame : loc) (results : Results) (alpha : Q) :
  holds (custom_visualization frame results alpha).
Proof.
  intros w o w' E. apply custom_visualization_renders in E as [Hr _].
  by apply renders_still_held.
Qed.

Lemma holds_annotate (args : Namespace) (frame : loc) : holds (annotate args frame).
Proof.
  unfold annotate. apply holds_bind; [apply holds_load|]. intros f.
  apply holds_bind; [by apply holds_emit|]. intros _.
  apply holds_bind; [by apply holds_emit|]. intros _.
  destruct (args_custom_visualization args);
    [apply holds_custom_visualization|apply holds_alloc].
Qed.

Lemma holds_fps_update (v : FpsVars) : holds (fps_update v).
Proof.
  intros w o w' E. destruct (fps_update_total v w) as (v' & n & Ev).
  rewrite Ev in E. simplify_eq. by apply still_held_same.
Qed.

Lemma holds_cap_read : holds cap_read.
Proof.
  intros w o w' E. unfold cap_read in E.
  destruct (cap_opened w) eqn:Ho, (cap_frames w) as [|f fs]; simplify_eq;
    (split; [done|]; eexists [_]; split; [done|]; by repeat constructor).
Qed.

Lemma holds_waitKey (delay : Z) : holds (cv2_waitKey delay).
Proof.
  intros w o w' E. unfold cv2_waitKey in E. simplify_eq.
  split; [done|]. eexists [_]. split; [done|]. by repeat constructor.
Qed.

Lemma holds_main_loop (args : Namespace) (ow : option unit) (fuel : nat) :
  ∀ v : FpsVars, holds (main_loop fuel args ow v).
Proof.
  induction fuel as [|fuel IH]; intros v; [apply holds_lift|].
  cbn [main_loop].
  apply holds_bind; [intros w o w' E; unfold cap_isOpened in E; simplify_eq;
                     apply still_held_refl|].
  intros opened. destruct (negb opened); [apply holds_ret|].
  apply holds_bind; [apply holds_cap_read|]. intros [frame|]; [|apply holds_ret].
  apply holds_bind; [apply holds_fps_update|]. intros v'.
  apply holds_bind; [apply holds_annotate|]. intros a.
  apply holds_bind.
  { destruct (args_show_fps args); [apply holds_putText|apply holds_ret]. }
  intros _. apply holds_bind; [by apply holds_emit|]. intros _.
  apply holds_bind.
  { destruct ow; [by apply holds_emit|apply holds_ret]. }
  intros _. apply holds_bind; [apply holds_waitKey|]. intros key.
  destruct (Z.land key 255 =? 113); [apply holds_ret|apply IH].
Qed.

(** X14. There is no clean-up on an exception. When the run ends with an
    exception, the source is still open and neither the source nor the
    writer was released, nor were the windows closed. *)
Theorem exception_skips_release (fuel : nat) (args : Namespace) (w w' : World)
    (e : Exn) :
  cap_opened w = true →
  (length (cap_frames w) < fuel)%nat →
  main fuel args w = (Raise e, w') →
  e ≠ OutOfFuel ∧
  cap_opened w' = true ∧
  ∃ new : list Event,
    trace w' = new ++ trace w ∧
    (EvCapRelease ∉ new) ∧ (EvWriterRelease ∉ new) ∧ (EvDestroyAllWindows ∉ new).
Proof.
  intros Ho Hlen E.
  destruct (main_spec fuel args w Ho Hlen) as (o & w0 & E0 & Hres).
  rewrite E in E0. injection E0 as Eo Ew. subst o w0. destruct Hres as [He Hc].
  split; [done|].
  assert (Hh : still_held w w').
  { revert E. unfold main.
    rewrite (bind_ok cap_isOpened _ w _ _ eq_refl), Ho. cbn [negb].
    unfold bind at 1.
    destruct ((if args_save args then bind (emit EvWriterOpen) (λ _, ret (Some tt))
               else ret None) w) as [[ow|e1] w1] eqn:E1.
    2:{ destruct (args_save args); unfold bind, emit, ret in E1; simplify_eq. }
    assert (Hh1 : still_held w w1).
    { destruct (args_save args); unfold bind, emit, ret in E1; simplify_eq;
        [by apply still_held_emit|apply still_held_refl]. }
    rewrite (bind_ok fps_init _ w1 _ _ eq_refl).
    set (w2 := set_clock_reads _ w1).
    assert (Hh2 : still_held w1 w2) by by apply still_held_same.
    unfold bind at 1.
    destruct (main_loop fuel args ow _ w2) as [[[]|e3] w3] eqn:E3.
    - unfold bind, cap_release, emit, ret.
      destruct ow; intros; simplify_eq.
    - intros. simplify_eq. apply holds_main_loop in E3.
      eauto using still_held_trans. }
  destruct Hh as [Hopen (new & Ht & Hf)]. split; [congruence|].
  exists new. split; [done|].
  rewrite Forall_forall in Hf.
  split_and!; intros Hin; destruct (Hf _ Hin) as (? & ? & ?); done.
Qed.

(** X15. When the source could not be opened nothing happens at all: no
    frame is read, no writer created, nothing released, no window closed,
    and the clock is not even read. *)
Theorem unopened_source_does_nothing (fuel : nat) (args : Namespace) (w : World) :
  cap_opened w = false →
  main fuel args w = (Ok tt, w).
Proof.
  intros Ho. unfold main.
  by rewrite (bind_ok cap_isOpened _ w _ _ eq_refl), Ho.
Qed.

End Held.

(** ** Colour table, zip and untouched pixels *)

Lemma length_zip3 {A B C} (a : list A) (b : list B) (c : list C) :
  length (zip3 a b c) = (length a `min` (length b `min` length c))%nat.
Proof.
  revert b c. induction a as [|x a IH]; intros [|y b] [|z c]; simpl; try lia.
  rewrite IH. lia.
Qed.

(** X16. The loop of the renderer runs over as many detections as the
    shortest of the three arrays holds: masks, boxes or class ids in excess
    are ignored; without masks there is none. *)
Theorem detections_length (results : Results) :
  length (detections results)
  = match masks results with
    | None => 0%nat
    | Some ms =>
      (length ms `min` (length (boxes_data results) `min` length (boxes_cls results)))%nat
    end.
Proof.
  unfold detections. destruct (masks results) as [ms|]; [|done].
  by rewrite length_zip3, length_fmap.
Qed.

Section Table.
Context `{NumpyRandom, Cv2}.

Lemma draw_rows_length (low high : Z) (n : nat) :
  ∀ g : rng_state, length (draw_rows low high n g).1 = n.
Proof.
  induction n as [|n IH]; intros g; [done|]. simpl.
  destruct (next_uint8 low high g) as [a g1].
  destruct (next_uint8 low high g1) as [b g2].
  destruct (next_uint8 low high g2) as [c g3].
  specialize (IH g3). destruct (draw_rows low high n g3) as [rest g'].
  simpl in *. by rewrite IH.
Qed.

(** X17. The colour table has one row per class name, so every class id
    from 0 up to the number of names has a colour, whatever the seed. *)
Theorem every_named_class_has_colour (seed : Z) (num_classes : nat)
    (class_id : Z) (w : World) :
  0 ≤ class_id < Z.of_nat num_classes →
  ∃ (colors : list Pixel) (color : Pixel),
    (class_colors seed num_classes w).1 = Ok colors ∧
    length colors = num_classes ∧
    np_getitem colors class_id = Ok color.
Proof.
  intros Hk. rewrite class_colors_run. simpl.
  set (colors := (draw_rows 0 255 num_classes (seed_state seed)).1).
  assert (Hlen : length colors = num_classes) by apply draw_rows_length.
  assert (Hlt : (Z.to_nat class_id < length colors)%nat) by lia.
  destruct (lookup_lt_is_Some_2 colors _ Hlt) as [color Hc].
  exists colors, color. split_and!; [done|done|].
  unfold np_getitem. rewrite Hlen.
  assert (Hneg : (class_id <? 0) = false) by (apply Z.ltb_ge; lia).
  assert (Ht : (0 <=? class_id) && (class_id <? Z.of_nat num_classes) = true).
  { apply andb_true_iff. split; [apply Z.leb_le|apply Z.ltb_lt]; lia. }
  by rewrite Hneg, Ht, Hc.
Qed.

Lemma composite_detections_uncovered (alpha : Q) (colors : list Pixel)
    (fr : Frame) (r c : nat) (dets : list (Mask * BoxRow * Z)) :
  ∀ p : Pixel,
    forallb (λ det, negb (mask_covers fr det.1.1 r c)) dets = true →
    composite_detections alpha colors fr r c p dets = p.
Proof.
  unfold composite_detections.
  induction dets as [|det dets IH]; intros p Hall; [done|].
  simpl in Hall. apply andb_true_iff in Hall as [Hd Hall].
  apply negb_true_iff in Hd. simpl. rewrite Hd.
  destruct (np_getitem colors det.2); by apply IH.
Qed.

(** X18. For an alpha in the range of single precision the renderer leaves
    untouched every pixel that lies under no thresholded mask and under no
    box or label of any detection. *)
Theorem untouched_outside_detections (frame : loc) (results : Results)
    (alpha : Q) (w w' : World) (a : loc) (fr : Frame) (r c : nat) (p : Pixel) :
  custom_visualization frame results alpha w = (Ok a, w') →
  heap w !! frame = Some fr →
  at_px fr r c = Some p →
  pixel_u8 p = true →
  fits_float32 alpha = true →
  any_box_label_covers results (detections results) (Z.of_nat c) (Z.of_nat r) = false →
  forallb (λ det, negb (mask_covers fr det.1.1 r c)) (detections results) = true →
  ∃ out : Frame, heap w' !! a = Some out ∧ at_px out r c = Some p.
Proof.
  intros E Hfr Hp Hu8 Hfit Hcov Hmask.
  rewrite (custom_visualization_unfold _ _ _ _ _ Hfr) in E.
  assert (Hlt : (frame < length (heap w))%nat) by by eapply lookup_lt_Some.
  destruct (masks results) as [ms|] eqn:Hm.
  - eapply (for_each_draw_pixel _ _ _ _ fr r c) in E as (out & Ho & Hpx); try done.
    + exists out. split; [done|].
      by rewrite Hpx, composite_detections_uncovered.
    + simpl. by rewrite lookup_app_l.
    + simpl. by apply list_lookup_middle.
  - simplify_eq. exists fr. split; [by apply list_lookup_middle|done].
Qed.

End Table.

(** ** The further properties on sample inputs *)

Lemma pair_of {A B} (x : A * B) (a : A) : x.1 = a → x = (a, x.2).
Proof. intros <-. apply surjective_pairing. Defined.

(** X1 on two detections that cover a 6 by 6 black frame, at pixel (5, 5). *)
Lemma mask_compositing_is_fold_witness :
  ∃ out : Frame,
    heap (@custom_visualization counting_random block_cv2 0%nat
            (corner_results 6 [1%Q; 1%Q]) (3 # 10) (black_world 6)).2 !! 3%nat
      = Some out ∧
    at_px out 5 5
    = Some (composite_detections (H0 := block_cv2) (3 # 10)
              (draw_rows (H := counting_random) 0 255
                 (names_len (names (corner_results 6 [1%Q; 1%Q])))
                 (seed_state 42)).1
              (solid 6 6 (0, 0, 0)) 5 5 (0, 0, 0)
              (detections (corner_results 6 [1%Q; 1%Q]))).
Proof.
  apply (@mask_compositing_is_fold counting_random block_cv2 0%nat
           (corner_results 6 [1%Q; 1%Q]) (3 # 10) (black_world 6) _ 3%nat
           (solid 6 6 (0, 0, 0)) 5%nat 5%nat (0, 0, 0)).
  - apply pair_of. reflexivity.
  - reflexivity.
  - reflexivity.
  - reflexivity.
  - reflexivity.
  - reflexivity.
Defined.


(** X3 on two detections. *)
Lemma output_has_frame_shape_witness :
  ∃ out : Frame,
    heap (@custom_visualization counting_random block_cv2 0%nat
            (corner_results 6 [1%Q; 1%Q]) (3 # 10) (black_world 6)).2 !! 3%nat
      = Some out ∧
    length <$> out = length <$> solid 6 6 (0, 0, 0) ∧
    height out = height (solid 6 6 (0, 0, 0)) ∧
    width out = width (solid 6 6 (0, 0, 0)).
Proof.
  apply (@output_has_frame_shape counting_random block_cv2 0%nat
           (corner_results 6 [1%Q; 1%Q]) (3 # 10) (black_world 6) _ 3%nat
           (solid 6 6 (0, 0, 0))).
  - apply pair_of. reflexivity.
  - reflexivity.
Defined.


(** X6 on a grey frame, a mask that covers it, the colour (95, 179, 61) and
    alpha 0.3. *)
Lemma blend_brightens_only_witness :
  ∃ (dst : Frame) (q : Pixel),
    (@blend_mask counting_random block_cv2 0%nat [(95, 179, 61)] float_0_3 1%nat
       (flat_mask 4 4 1) 0 (grey_world 4)).1 = Ok (2%nat, (95, 179, 61)) ∧
    heap (@blend_mask counting_random block_cv2 0%nat [(95, 179, 61)] float_0_3
            1%nat (flat_mask 4 4 1) 0 (grey_world 4)).2 !! 2%nat = Some dst ∧
    at_px dst 1 2 = Some q ∧ pixel_u8 q = true ∧ px_le (200, 200, 200) q = true.
Proof.
  destruct (@blend_brightens_only counting_random block_cv2 0%nat [(95, 179, 61)]
              float_0_3 1%nat (flat_mask 4 4 1) 0 (grey_world 4)
              (solid 4 4 (200, 200, 200)) (solid 4 4 (200, 200, 200)) (95, 179, 61)
              eq_refl eq_refl eq_refl eq_refl eq_refl eq_refl eq_refl)
    as (dst & Hrun & Hpx).
  { split; discriminate. }
  destruct (Hpx 1%nat 2%nat (200, 200, 200) eq_refl) as (q & Hq & Hq8 & Hle).
  exists dst, q. rewrite Hrun. split_and!; done.
Defined.

(** X7 on a result with masks. *)
Lemma renderer_reseeds_generator_witness :
  np_random (@custom_visualization counting_random block_cv2 0%nat
               (corner_results 6 [1%Q; 1%Q]) (3 # 10) (black_world 6)).2
  = (draw_rows (H := counting_random) 0 255
       (names_len (names (corner_results 6 [1%Q; 1%Q]))) (seed_state 42)).2.
Proof.
  exact (@renderer_reseeds_generator counting_random block_cv2 0%nat
           (corner_results 6 [1%Q; 1%Q]) (3 # 10) (black_world 6)
           (solid 6 6 (0, 0, 0)) eq_refl).
Defined.

(** X8 on one detection of class 0 in the top left corner: pixel (0, 0)
    lies on the box outline and under no text, and holds the class colour. *)
Lemma last_label_on_top_witness :
  ∃ out : Frame,
    heap (@custom_visualization counting_random block_cv2 0%nat
            (corner_results 6 [1%Q]) (3 # 10) (black_world 6)).2 !! 2%nat
      = Some out ∧
    at_px out 0 0 = Some (42, 43, 44).
Proof.
  destruct (@last_label_on_top counting_random block_cv2 0%nat
              (corner_results 6 [1%Q]) (3 # 10) (black_world 6) _ 2%nat
              (solid 6 6 (0, 0, 0)) [] (flat_mask 6 6 1) (box_at 0 0 1 1 (9 # 10))
              0 "a" (42, 43, 44) 0%nat 0%nat (0, 0, 0)
              (pair_of _ _ eq_refl) eq_refl eq_refl eq_refl eq_refl eq_refl)
    as (out & Hout & _ & Hcolor).
  exists out. split; [exact Hout|]. apply Hcolor; reflexivity.
Defined.

(** X9 on a clock advancing by a quarter of a second per reading: four
    passes stay inside the window, the fifth reaches its boundary. *)
Lemma fps_rate_after_window_witness :
  (bind (fps_ticks 4 {| frame_count := 0; start_time := 0; fps_display := 0 |})
     fps_update (three_frame_world (λ _, -1))).1
  = Ok {| frame_count := 0;
          start_time := quarter_clock 5;
          fps_display := (inject_Z (0 + Z.of_nat 4 + 1) / (quarter_clock 4 - 0))%Q |}.
Proof.
  apply (@fps_rate_after_window counting_random 4
           {| frame_count := 0; start_time := 0; fps_display := 0 |}
           (three_frame_world (λ _, -1))).
  - intros i Hi. do 4 (destruct i as [|i]; [reflexivity|]). lia.
  - discriminate.
Defined.

(** X10 at a window boundary: three frames in one second. *)
Lemma fps_rate_bounds_witness :
  0 ≤ 0 ∧
  ((1 <= quarter_clock 0 - - (1))%Q →
   (0 < inject_Z 3 / (quarter_clock 0 - - (1)))%Q ∧
   (inject_Z 3 / (quarter_clock 0 - - (1)) <= inject_Z (2 + 1))%Q ∧
   0 = 0) ∧
  ((quarter_clock 0 - - (1) < 1)%Q →
   (inject_Z 3 / (quarter_clock 0 - - (1)))%Q = 0%Q ∧ 0 = 2 + 1).
Proof.
  apply (@fps_rate_bounds counting_random
           {| frame_count := 2; start_time := - (1); fps_display := 0 |}
           {| frame_count := 0; start_time := quarter_clock 1;
              fps_display := (inject_Z 3 / (quarter_clock 0 - - (1)))%Q |}
           (three_frame_world (λ _, -1))
           (fps_update {| frame_count := 2; start_time := - (1); fps_display := 0 |}
              (three_frame_world (λ _, -1))).2).
  - apply pair_of. reflexivity.
  - simpl. lia.
Defined.

(** X11 on a source of three frames and a keyboard on which no key is
    pressed. *)
Lemma loop_processes_every_frame_witness :
  ∃ (o : outcome unit) (w' : World),
    @main counting_random block_cv2 (fixed_yolo (corner_results 2 [1%Q])) 4
      args_conf_off (three_frame_world (λ _, -1)) = (o, w') ∧
    o ≠ Raise OutOfFuel ∧
    (args_custom_visualization args_conf_off = false → o = Ok tt) ∧
    (o = Ok tt →
     ∃ new : list Event,
       trace w' = new ++ trace (three_frame_world (λ _, -1)) ∧
       count_occ Event_eq_dec new EvDetect = 3%nat ∧
       count_occ Event_eq_dec new EvImshow = 3%nat ∧
       count_occ Event_eq_dec new (EvRead true) = 3%nat ∧
       count_occ Event_eq_dec new (EvRead false) = 1%nat).
Proof.
  apply (@loop_processes_every_frame counting_random block_cv2
           (fixed_yolo (corner_results 2 [1%Q])) 4 args_conf_off
           (three_frame_world (λ _, -1))).
  - reflexivity.
  - simpl. lia.
  - intros i _. vm_compute. discriminate.
Defined.

(** X12 on a source of three frames and the key code 369 (113 modulo 256)
    at the first poll. *)
Lemma quit_key_stops_loop_witness :
  ∃ (o : outcome unit) (w' : World),
    @main counting_random block_cv2 (fixed_yolo (corner_results 2 [1%Q])) 4
      args_conf_off (three_frame_world (λ _, 369)) = (o, w') ∧
    o ≠ Raise OutOfFuel ∧
    (args_custom_visualization args_conf_off = false → o = Ok tt) ∧
    (o = Ok tt →
     ∃ new : list Event,
       trace w' = new ++ trace (three_frame_world (λ _, 369)) ∧
       count_occ Event_eq_dec new EvDetect = 1%nat ∧
       count_occ Event_eq_dec new EvImshow = 1%nat ∧
       count_occ Event_eq_dec new (EvRead true) = 1%nat ∧
       count_occ Event_eq_dec new (EvRead false) = 0%nat ∧
       count_occ Event_eq_dec new EvCapRelease = 1%nat).
Proof.
  apply (@quit_key_stops_loop counting_random block_cv2
           (fixed_yolo (corner_results 2 [1%Q])) 4 args_conf_off
           (three_frame_world (λ _, 369)) 0).
  - reflexivity.
  - simpl. lia.
  - simpl. lia.
  - intros i Hi. lia.
  - reflexivity.
Defined.

(** X13 on a source of three frames with recording on. *)
Lemma recording_follows_display_witness :
  ∃ (o : outcome unit) (w' : World),
    @main counting_random block_cv2 (fixed_yolo (corner_results 2 [1%Q])) 4
      args_conf_off (three_frame_world (λ _, -1)) = (o, w') ∧
    o ≠ Raise OutOfFuel ∧
    (args_custom_visualization args_conf_off = false → o = Ok tt) ∧
    (o = Ok tt →
     ∃ new : list Event,
       trace w' = new ++ trace (three_frame_world (λ _, -1)) ∧
       count_occ Event_eq_dec new EvWrite
         = (if args_save args_conf_off then count_occ Event_eq_dec new EvImshow
            else 0%nat) ∧
       count_occ Event_eq_dec new EvWriterOpen
         = (if args_save args_conf_off then 1%nat else 0%nat) ∧
       count_occ Event_eq_dec new EvWriterRelease
         = (if args_save args_conf_off then 1%nat else 0%nat)).
Proof.
  apply (@recording_follows_display counting_random block_cv2
           (fixed_yolo (corner_results 2 [1%Q])) 4 args_conf_off
           (three_frame_world (λ _, -1))).
  - reflexivity.
  - simpl. lia.
Defined.

(** X14 on a detector that reports a class without a name: the first pass
    raises KeyError in the renderer. *)
Lemma exception_skips_release_witness :
  KeyError ≠ OutOfFuel ∧
  cap_opened (@main counting_random block_cv2 (fixed_yolo (unnamed_results 2)) 4
                args_conf_off (three_frame_world (λ _, -1))).2 = true ∧
  ∃ new : list Event,
    trace (@main counting_random block_cv2 (fixed_yolo (unnamed_results 2)) 4
             args_conf_off (three_frame_world (λ _, -1))).2
    = new ++ trace (three_frame_world (λ _, -1)) ∧
    (EvCapRelease ∉ new) ∧ (EvWriterRelease ∉ new) ∧ (EvDestroyAllWindows ∉ new).
Proof.
  apply (@exception_skips_release counting_random block_cv2
           (fixed_yolo (unnamed_results 2)) 4 args_conf_off
           (three_frame_world (λ _, -1))).
  - reflexivity.
  - simpl. lia.
  - apply pair_of. vm_compute. reflexivity.
Defined.

(** X15 on a source that failed to open. *)
Lemma unopened_source_does_nothing_witness :
  @main counting_random block_cv2 (fixed_yolo (corner_results 2 [1%Q])) 4
    args_conf_off closed_world = (Ok tt, closed_world).
Proof.
  apply (@unopened_source_does_nothing counting_random block_cv2
           (fixed_yolo (corner_results 2 [1%Q])) 4 args_conf_off closed_world).
  reflexivity.
Defined.

(** X17 for class 1 of two classes. *)
Lemma every_named_class_has_colour_witness :
  ∃ (colors : list Pixel) (color : Pixel),
    (class_colors (H := counting_random) 42 2 (black_world 2)).1 = Ok colors ∧
    length colors = 2%nat ∧
    np_getitem colors 1 = Ok color.
Proof.
  apply (every_named_class_has_colour (H := counting_random) 42 2 1 (black_world 2)).
  simpl. lia.
Defined.

(** X18 on two detections whose masks are below the threshold everywhere,
    at pixel (5, 5), away from their boxes and labels. *)
Lemma untouched_outside_detections_witness :
  ∃ out : Frame,
    heap (@custom_visualization counting_random block_cv2 0%nat
            (corner_results 6 [0%Q; 0%Q]) (3 # 10) (black_world 6)).2 !! 3%nat
      = Some out ∧
    at_px out 5 5 = Some (0, 0, 0).
Proof.
  apply (@untouched_outside_detections counting_random block_cv2 0%nat
           (corner_results 6 [0%Q; 0%Q]) (3 # 10) (black_world 6) _ 3%nat
           (solid 6 6 (0, 0, 0)) 5%nat 5%nat (0, 0, 0)).
  - apply pair_of. reflexivity.
  - reflexivity.
  - reflexivity.
  - reflexivity.
  - reflexivity.
  - reflexivity.
  - reflexivity.
Defined.
